(** * The session broker of the virtual-browser gateway

    A shallow embedding of [src/Backend/gateway.js]: the four shared
    structures of the gateway ([connections], [sessions], [waitingClients],
    [availableWorkers]), its socket.io handlers, the pairing function
    [matchClientWithWorker] and the delayed reclaim callback, followed by the
    properties of the broker specification that were checked against them.

    Modelling choices.
    - A socket object is represented by its [id]: socket.io creates one socket
      object per connection id, so object identity ([indexOf]) and id equality
      coincide.
    - The gateway is a single-threaded event loop: one handler runs to
      completion per event, so a handler is a function [state -> state].
    - [Math.random().toString(36).substring(7)] is an input of the step: the
      token [rnd] is the string that call would return in this step.
    - [setTimeout(cb, 1000)] appends the callback to [timers]; all delays are
      equal, so callbacks fire in the order they were scheduled ([TimerFire]).
    - [socket.emit] / [target.emit] append to the log [outbox]. *)

From stdpp Require Import gmap strings list fin_maps.

Local Open Scope string_scope.
Local Open Scope list_scope.

(** ** Data model *)

(** [type: 'worker' | 'client'] *)
Inductive connType := worker | client.

(** [status: 'idle' | 'busy']; the field is absent on client entries. *)
Inductive connStatus := idle | busy.

(** The [sessionId] field of a connection entry: absent when the entry is
    created, a string after a pairing, [null] after a reclaim. *)
Inductive sessionIdField :=
| sid_undefined
| sid_null
| sid_str (s : string).

Record connection := Conn {
  type : connType;
  status : option connStatus;
  sessionId : sessionIdField
}.

(** [sessions] values: [{ clientSocket, workerSocket }]. *)
Record session := Session {
  clientSocket : string;
  workerSocket : string
}.

(** Arguments carried by events: nothing, an opaque application payload
    (config, signal data, input event, frame, status text), or the
    [{ sessionId }] object of ['session-started']. *)
Inductive payload :=
| p_undefined
| p_data (d : string)
| p_session_started (sid : string).

(** One [emit] of the gateway towards a socket. *)
Record emission := Emitted {
  target : string;
  event : string;
  arg : payload
}.

Record state := State {
  connections : gmap string connection;
  sessions : gmap string session;
  waitingClients : list string;
  availableWorkers : list string;
  timers : list string;
  outbox : list emission
}.

Definition init : state := State ∅ ∅ [] [] [] [].

#[global] Instance connType_eq_dec : EqDecision connType.
Proof. solve_decision. Defined.
#[global] Instance connStatus_eq_dec : EqDecision connStatus.
Proof. solve_decision. Defined.
#[global] Instance sessionIdField_eq_dec : EqDecision sessionIdField.
Proof. solve_decision. Defined.
#[global] Instance payload_eq_dec : EqDecision payload.
Proof. solve_decision. Defined.
#[global] Instance connection_eq_dec : EqDecision connection.
Proof. solve_decision. Defined.
#[global] Instance session_eq_dec : EqDecision session.
Proof. solve_decision. Defined.

(** ** JavaScript helpers *)

(** Truthiness of [conn.sessionId]: [undefined], [null] and the empty string
    are falsy. *)
Definition truthy (f : sessionIdField) : bool :=
  match f with
  | sid_str s => negb (String.eqb s "")
  | _ => false
  end.

(** [conn.status === 'idle'] *)
Definition is_idle (c : connection) : bool :=
  match status c with
  | Some idle => true
  | _ => false
  end.

(** [const i = l.indexOf(x); if (i > -1) l.splice(i, 1);] *)
Fixpoint remove_first (x : string) (l : list string) : list string :=
  match l with
  | [] => []
  | y :: l' => if String.eqb x y then l' else y :: remove_first x l'
  end.

Definition set_sessionId (v : sessionIdField) (c : connection) : connection :=
  Conn (type c) (status c) v.

Definition set_status (v : connStatus) (c : connection) : connection :=
  Conn (type c) (Some v) (sessionId c).

Definition emit (t e : string) (a : payload) (st : state) : state :=
  State (connections st) (sessions st) (waitingClients st)
        (availableWorkers st) (timers st) (outbox st ++ [Emitted t e a]).

(** ** [matchClientWithWorker] (gateway.js, lines 168-195) *)

Definition matchClientWithWorker (rnd : string)
    (clientSocket workerSocket : option string) (config : payload)
    (st : state) : state :=
  match clientSocket, workerSocket with
  | Some c, Some w =>
      (* Safety check: ensure client entry exists *)
      let conns1 :=
        match connections st !! c with
        | Some _ => connections st
        | None => <[c := Conn client None sid_undefined]> (connections st)
        end in
      (* Safety check: ensure worker entry exists *)
      match conns1 !! w with
      | None =>
          (* console.error(...); return; *)
          State conns1 (sessions st) (waitingClients st)
                (availableWorkers st) (timers st) (outbox st)
      | Some _ =>
          let conns2 := alter (set_sessionId (sid_str rnd)) c conns1 in
          let conns3 := alter (set_sessionId (sid_str rnd)) w conns2 in
          let conns4 := alter (set_status busy) w conns3 in
          State conns4 (<[rnd := Session c w]> (sessions st))
                (waitingClients st) (availableWorkers st) (timers st)
                (outbox st ++ [Emitted w "start-session" config;
                               Emitted c "session-started" (p_session_started rnd)])
      end
  | _, _ => st
  end.

(** ** Handlers installed by [io.on('connection', ...)] *)

(** [socket.on('register-worker')] (lines 34-46) *)
Definition register_worker (rnd : string) (socket : string) (st : state) : state :=
  let conns := <[socket := Conn worker (Some idle) sid_undefined]> (connections st) in
  match waitingClients st with
  | clientSocket :: rest =>
      (* Assign immediately - DO NOT add to availableWorkers pool *)
      matchClientWithWorker rnd (Some clientSocket) (Some socket) p_undefined
        (State conns (sessions st) rest (availableWorkers st) (timers st) (outbox st))
  | [] =>
      State conns (sessions st) [] (availableWorkers st ++ [socket])
            (timers st) (outbox st)
  end.

(** [socket.on('register-client')] (lines 48-53) *)
Definition register_client (socket : string) (st : state) : state :=
  match connections st !! socket with
  | Some _ => st
  | None =>
      State (<[socket := Conn client None sid_undefined]> (connections st))
            (sessions st) (waitingClients st) (availableWorkers st)
            (timers st) (outbox st)
  end.

(** The [while (availableWorkers.length > 0)] loop of ['request-session']
    (lines 67-79), the spec's [takeProvider]: returns [workerSocket] and what
    is left of [availableWorkers]. *)
Fixpoint takeProvider (conns : gmap string connection) (pool : list string)
    : option string * list string :=
  match pool with
  | [] => (None, [])
  | candidate :: rest =>
      match conns !! candidate with
      | Some conn =>
          if is_idle conn then (Some candidate, rest)
          else takeProvider conns rest
      | None => takeProvider conns rest
      end
  end.

(** [socket.on('request-session')] (lines 56-88) *)
Definition request_session (rnd : string) (socket : string) (config : payload)
    (st : state) : state :=
  (* Auto-register if missing *)
  let conns :=
    match connections st !! socket with
    | Some _ => connections st
    | None => <[socket := Conn client None sid_undefined]> (connections st)
    end in
  let '(workerSocket, pool) := takeProvider conns (availableWorkers st) in
  let st1 := State conns (sessions st) (waitingClients st) pool
                   (timers st) (outbox st) in
  match workerSocket with
  | Some w => matchClientWithWorker rnd (Some socket) (Some w) config st1
  | None =>
      State conns (sessions st) (waitingClients st ++ [socket]) pool (timers st)
            (outbox st ++ [Emitted socket "status"
                             (p_data "Waiting for available browser engine...")])
  end.

(** [socket.on('signal')] (lines 91-103) *)
Definition signal (socket : string) (data : payload) (st : state) : state :=
  match connections st !! socket with
  | None => st
  | Some conn =>
      match sessionId conn with
      | sid_str sid =>
          if truthy (sessionId conn) then
            match sessions st !! sid with
            | None => st
            | Some session =>
                let target :=
                  match type conn with
                  | client => workerSocket session
                  | worker => clientSocket session
                  end in
                emit target "signal" data st
            end
          else st
      | _ => st
      end
  end.

(** [socket.on('browser-event')] (lines 106-121) *)
Definition browser_event (socket : string) (data : payload) (st : state) : state :=
  match connections st !! socket with
  | None => st
  | Some conn =>
      match sessionId conn with
      | sid_str sid =>
          if truthy (sessionId conn) then
            match sessions st !! sid with
            | None => st
            | Some session =>
                match type conn with
                | client => emit (workerSocket session) "input-event" data st
                | worker => emit (clientSocket session) "frame" data st
                end
            end
          else st
      | _ => st
      end
  end.

(** The callback given to [setTimeout] (lines 149-156), for the worker of the
    captured [session]. *)
Definition reclaim (w : string) (st : state) : state :=
  match connections st !! w with
  | Some _ =>
      State (alter (set_sessionId sid_null) w
               (alter (set_status idle) w (connections st)))
            (sessions st) (waitingClients st) (availableWorkers st ++ [w])
            (timers st) (outbox st)
  | None => st
  end.

(** [socket.on('disconnect')] (lines 123-165) *)
Definition disconnect (socket : string) (st : state) : state :=
  match connections st !! socket with
  | None => st
  | Some conn =>
      let st1 :=
        match type conn with
        | worker =>
            (* Remove from available *)
            let pool := remove_first socket (availableWorkers st) in
            (* Notify partner if in session *)
            match sessionId conn with
            | sid_str sid =>
                if truthy (sessionId conn) then
                  let out :=
                    match sessions st !! sid with
                    | Some session =>
                        outbox st ++ [Emitted (clientSocket session)
                                        "worker-disconnected" p_undefined]
                    | None => outbox st
                    end in
                  State (connections st) (delete sid (sessions st))
                        (waitingClients st) pool (timers st) out
                else
                  State (connections st) (sessions st) (waitingClients st) pool
                        (timers st) (outbox st)
            | _ =>
                State (connections st) (sessions st) (waitingClients st) pool
                      (timers st) (outbox st)
            end
        | client =>
            let st2 :=
              match sessionId conn with
              | sid_str sid =>
                  if truthy (sessionId conn) then
                    match sessions st !! sid with
                    | Some session =>
                        (* Kill session, then schedule the reclaim *)
                        State (connections st) (delete sid (sessions st))
                              (waitingClients st) (availableWorkers st)
                              (timers st ++ [workerSocket session])
                              (outbox st ++ [Emitted (workerSocket session)
                                               "stop-session" p_undefined])
                    | None =>
                        State (connections st) (delete sid (sessions st))
                              (waitingClients st) (availableWorkers st)
                              (timers st) (outbox st)
                    end
                  else st
              | _ => st
              end in
            (* Remove from queue *)
            State (connections st2) (sessions st2)
                  (remove_first socket (waitingClients st2))
                  (availableWorkers st2) (timers st2) (outbox st2)
        end in
      State (delete socket (connections st1)) (sessions st1)
            (waitingClients st1) (availableWorkers st1) (timers st1) (outbox st1)
  end.

(** ** The event loop *)

(** What the gateway process reacts to: a message [name] with argument [a]
    emitted by the peer behind [sock], the transport-level disconnect of
    [sock], and the expiry of the oldest pending timer. *)
Inductive input :=
| Emit (sock name : string) (a : payload)
| Disconnect (sock : string)
| TimerFire.

(** Dispatch of a peer message to the listener registered under its name; a
    name without listener is ignored by socket.io. *)
Definition on (rnd : string) (sock name : string) (a : payload) (st : state) : state :=
  if String.eqb name "register-worker" then register_worker rnd sock st
  else if String.eqb name "register-client" then register_client sock st
  else if String.eqb name "request-session" then request_session rnd sock a st
  else if String.eqb name "signal" then signal sock a st
  else if String.eqb name "browser-event" then browser_event sock a st
  else st.

Definition step (st : state) (i : string * input) : state :=
  match i with
  | (rnd, Emit sock name a) => on rnd sock name a st
  | (_, Disconnect sock) => disconnect sock st
  | (_, TimerFire) =>
      match timers st with
      | w :: rest =>
          reclaim w (State (connections st) (sessions st) (waitingClients st)
                           (availableWorkers st) rest (outbox st))
      | [] => st
      end
  end.

(** Running a trace of inputs, each with the token [Math.random] would yield
    in that step. *)
Definition run (st : state) (tr : list (string * input)) : state :=
  foldl step st tr.

(** ** Example states *)

(** One worker, one client, paired under token ["s1"]. *)
Definition ex_paired : state :=
  run init [("", Emit "W" "register-worker" p_undefined);
            ("s1", Emit "C" "request-session" (p_data "cfg"))].

(** The client of [ex_paired] has left; the reclaim of ["W"] is pending. *)
Definition ex_grace : state :=
  run ex_paired [("", Disconnect "C")].

(** ** Vocabulary of the properties *)

(** [x] is registered with status idle in [conns]: the test of the pool scan. *)
Definition idle_in (conns : gmap string connection) (x : string) : bool :=
  match conns !! x with
  | Some conn => is_idle conn
  | None => false
  end.

(** [x] is one of the two peers of session entry [s]. *)
Definition appears (x : string) (s : session) : Prop :=
  clientSocket s = x ∨ workerSocket s = x.

#[global] Instance appears_dec (x : string) (s : session) : Decision (appears x s).
Proof. unfold appears. apply _. Defined.

(** No live Session Table entry mentions [x]. *)
Definition unbound (ss : gmap string session) (x : string) : Prop :=
  map_Forall (λ _ s, ¬ appears x s) ss.

(** [x] appears in exactly one live Session Table entry. *)
Definition in_exactly_one_session (st : state) (x : string) : Prop :=
  ∃ sid s, sessions st !! sid = Some s ∧ appears x s
           ∧ ∀ sid' s', sessions st !! sid' = Some s' → appears x s' → sid' = sid.

(** The [sessionId] of [conn] is set and names a live Session Table entry. *)
Definition names_live_session (st : state) (conn : connection) : Prop :=
  ∃ sid, sessionId conn = sid_str sid ∧ sid ≠ "" ∧ is_Some (sessions st !! sid).

(** The session-binding invariant in the words of the specification: for
    every connection of the Registry, [sessionId] is set iff the connection
    appears in exactly one live entry. *)
Definition session_binding_iff (st : state) : Prop :=
  ∀ x conn, connections st !! x = Some conn →
    truthy (sessionId conn) = true ↔ in_exactly_one_session st x.

(** The two peers of every live session are distinct connections. *)
Definition distinct_peers (st : state) : Prop :=
  ∀ sid s, sessions st !! sid = Some s → clientSocket s ≠ workerSocket s.

(** No connection is a peer of two live sessions. *)
Definition no_double_binding (st : state) : Prop :=
  ∀ x sid sid' s s',
    sessions st !! sid = Some s → sessions st !! sid' = Some s' →
    appears x s → appears x s' → sid = sid'.

(** ** Peers that follow the protocol

    The gateway validates the provider it takes from the pool, and nothing
    else. A conforming input is what well-behaved peers behind socket.io
    send:
    - the token drawn for a new session is new: non-empty, not the key of a
      live session and not the sessionId a connection still carries;
    - socket ids are not reused: a sender that is not in the Registry has no
      reclaim pending under its id;
    - a connection sends 'register-worker' once, when it is not yet in the
      Registry ([worker.js] registers on connect);
    - 'request-session' comes from a connection that is not registered as a
      worker, is not waiting in the queue and is not a peer of a live
      session ([App.jsx] hides the request button while it has a session,
      not while it waits).
    The token of a step that draws none is not read by the step, so asking
    for a fresh one there as well restricts no execution. *)
Definition token_ok (st : state) (rnd : string) : Prop :=
  rnd ≠ "" ∧ sessions st !! rnd = None
  ∧ map_Forall (λ _ conn, sessionId conn ≠ sid_str rnd) (connections st).

Definition conforming_input (st : state) (i : string * input) : Prop :=
  match i with
  | (rnd, Emit x name _) =>
      if String.eqb name "register-worker" then
        connections st !! x = None ∧ (x ∉ timers st) ∧ token_ok st rnd
      else if String.eqb name "register-client" then
        connections st !! x = None → x ∉ timers st
      else if String.eqb name "request-session" then
        match connections st !! x with
        | Some conn => type conn = client
        | None => x ∉ timers st
        end
        ∧ (x ∉ waitingClients st) ∧ unbound (sessions st) x ∧ token_ok st rnd
      else True
  | (_, Disconnect _) => True
  | (_, TimerFire) => True
  end.

#[global] Instance unbound_dec (ss : gmap string session) (x : string) :
  Decision (unbound ss x).
Proof. unfold unbound. apply _. Defined.

#[global] Instance token_ok_dec (st : state) (rnd : string) : Decision (token_ok st rnd).
Proof. unfold token_ok. apply _. Defined.

#[global] Instance conforming_input_dec (st : state) (i : string * input) :
  Decision (conforming_input st i).
Proof.
  destruct i as [rnd [x name a|x|]]; cbn; [|apply _..].
  destruct (String.eqb name "register-worker"); [apply _|].
  destruct (String.eqb name "register-client"); [apply _|].
  destruct (String.eqb name "request-session"); [|apply _].
  destruct (connections st !! x); apply _.
Defined.

Fixpoint conforming (st : state) (tr : list (string * input)) : Prop :=
  match tr with
  | [] => True
  | i :: tr' => conforming_input st i ∧ conforming (step st i) tr'
  end.

(** What a live entry [sid ↦ s] says about its two peers. *)
Definition session_ok (conns : gmap string connection) (sid : string) (s : session) : Prop :=
  sid ≠ ""
  ∧ (∃ cc, conns !! clientSocket s = Some cc
           ∧ type cc = client ∧ sessionId cc = sid_str sid)
  ∧ (∃ wc, conns !! workerSocket s = Some wc
           ∧ type wc = worker ∧ status wc = Some busy ∧ sessionId wc = sid_str sid).

(** The consistency of Registry, Session Table, queue and pending reclaims
    that conforming inputs maintain. The pool needs no condition: its entries
    are validated when they are taken. *)
Record consistent (conns : gmap string connection) (ss : gmap string session)
    (queue tms : list string) : Prop := Consistent {
  cons_sessions : map_Forall (session_ok conns) ss;
  cons_resolves : ∀ x conn sid s,
      conns !! x = Some conn → sessionId conn = sid_str sid → ss !! sid = Some s →
      appears x s;
  cons_clients : ∀ x conn, conns !! x = Some conn → type conn = client → status conn = None;
  cons_timers : ∀ x, x ∈ tms →
      unbound ss x
      ∧ ∀ conn, conns !! x = Some conn → type conn = worker ∧ status conn = Some busy;
  cons_timers_nodup : NoDup tms;
  cons_queue : ∀ x, x ∈ queue →
      unbound ss x ∧ ∃ conn, conns !! x = Some conn ∧ type conn = client;
  cons_queue_nodup : NoDup queue
}.

Definition Inv (st : state) : Prop :=
  consistent (connections st) (sessions st) (waitingClients st) (timers st).

#[global] Instance conforming_dec (tr : list (string * input)) (st : state) :
  Decision (conforming st tr).
Proof.
  revert st. induction tr as [|i tr IH]; intros st; cbn; apply _.
Defined.

(** A worker registers, a client registers and asks for a session. *)
Definition ex_trace : list (string * input) :=
  [("s0", Emit "W" "register-worker" p_undefined);
   ("s0", Emit "C" "register-client" p_undefined);
   ("s1", Emit "C" "request-session" (p_data "cfg"))].

(** A session from pairing to reclaim, with a second client that waits until
    a second worker registers. *)
Definition ex_lifecycle : list (string * input) :=
  ex_trace ++
  [("s2", Emit "C2" "request-session" (p_data "cfg"));
   ("s2", Emit "C" "signal" (p_data "offer"));
   ("s2", Disconnect "C");
   ("s2", TimerFire);
   ("s3", Emit "W2" "register-worker" p_undefined)].

(** A bound client asks for a second session while a second worker is idle. *)
Definition ex_double : state :=
  run init [("s0", Emit "W1" "register-worker" p_undefined);
            ("s0", Emit "W2" "register-worker" p_undefined);
            ("s1", Emit "C" "request-session" (p_data "cfg"));
            ("s2", Emit "C" "request-session" (p_data "cfg"))].

(** A client asks twice while no worker is there, then two workers register. *)
Definition ex_double_click : state :=
  run init [("s0", Emit "C" "request-session" (p_data "cfg"));
            ("s0", Emit "C" "request-session" (p_data "cfg"));
            ("s1", Emit "W1" "register-worker" p_undefined);
            ("s2", Emit "W2" "register-worker" p_undefined)].

(** An idle worker asks for a session itself. *)
Definition ex_self : state :=
  run init [("s0", Emit "W" "register-worker" p_undefined);
            ("s1", Emit "W" "request-session" (p_data "cfg"))].

(** ** The grace window of a provider *)

(** [w] is registered with status busy. *)
Definition busy_in (conns : gmap string connection) (w : string) : Prop :=
  ∃ wc, conns !! w = Some wc ∧ status wc = Some busy.

(** [e] tells [w] to start a session. *)
Definition starts (w : string) (e : emission) : Prop :=
  target e = w ∧ event e = "start-session".

(** An input that falls in the grace window of [w] and is not one of [w]'s
    own registration or departure: the timer that fires, if one does, is not
    the reclaim of [w]. *)
Definition quiet (w : string) (st : state) (i : string * input) : Prop :=
  match i.2 with
  | Emit x name _ => ¬ (x = w ∧ name = "register-worker")
  | Disconnect x => x ≠ w
  | TimerFire => head (timers st) ≠ Some w
  end.

Fixpoint in_window (w : string) (st : state) (tr : list (string * input)) : Prop :=
  match tr with
  | [] => True
  | i :: tr' => quiet w st i ∧ in_window w (step st i) tr'
  end.

(** ** Further vocabulary *)

(** The pool holds no duplicates and only providers that are registered and
    idle. *)
Definition pool_ok (st : state) : Prop :=
  NoDup (availableWorkers st)
  ∧ ∀ x, x ∈ availableWorkers st → idle_in (connections st) x = true.

(** Every worker entry is either busy with its sessionId set, or idle with
    its sessionId unset. *)
Definition worker_status_ok (st : state) : Prop :=
  ∀ x conn, connections st !! x = Some conn → type conn = worker →
    (status conn = Some busy ∧ truthy (sessionId conn) = true)
    ∨ (status conn = Some idle ∧ truthy (sessionId conn) = false).

(** * The front end ([src/Frontend/src/App.jsx])

    The React state of [App] that the session logic reads and writes, its
    socket listeners and the handlers of its buttons. A handler is a function
    from the state to the new state and the messages it emits to the gateway
    (event name and argument; the request config [{ url }] is its url). *)
Module App.

Record state := State {
  socket : bool;             (* the socket object exists *)
  status : string;
  sessionId : option string; (* null, or the id of 'session-started' *)
  frame : option payload;
  urlInput : string
}.

(** The values of [useState] at mount, before the effect creates the socket. *)
Definition init : state :=
  State false "Disconnected" None None "https://www.google.com".

(** Truthiness of [sessionId]: [null] and the empty string are falsy. *)
Definition has_session (s : state) : bool :=
  match sessionId s with
  | Some sid => negb (String.eqb sid "")
  | None => false
  end.

(** The sidebar shows the request button when [!sessionId] and the
    terminate button otherwise. *)
Definition allocate_offered (s : state) : bool := negb (has_session s).

(** [useEffect(() => { const newSocket = io(GATEWAY_URL); setSocket(newSocket); ... }, [])] *)
Definition mount (s : state) : state :=
  State true (status s) (sessionId s) (frame s) (urlInput s).

(** [newSocket.on('connect', ...)] *)
Definition on_connect (s : state) : state * list (string * payload) :=
  (State (socket s) "Connected to Gateway" (sessionId s) (frame s) (urlInput s),
   [("register-client", p_undefined)]).

(** [newSocket.on('disconnect', ...)] *)
Definition on_disconnect (s : state) : state :=
  State (socket s) "Disconnected" None (frame s) (urlInput s).

(** [newSocket.on('session-started', ({ sessionId }) => ...)] *)
Definition on_session_started (sid : string) (s : state) : state :=
  State (socket s) "Session Active" (Some sid) (frame s) (urlInput s).

(** [newSocket.on('status', (msg) => setStatus(msg))] *)
Definition on_status (msg : string) (s : state) : state :=
  State (socket s) msg (sessionId s) (frame s) (urlInput s).

(** [newSocket.on('frame', (data) => { setFrame(data); })] *)
Definition on_frame (data : payload) (s : state) : state :=
  State (socket s) (status s) (sessionId s) (Some data) (urlInput s).

(** [newSocket.on('worker-disconnected', ...)] *)
Definition on_worker_disconnected (s : state) : state :=
  State (socket s) "Browser Instance Lost" None None (urlInput s).

(** A message of the gateway reaches the listener registered under its
    name; other names have no listener. The gateway sends 'session-started'
    with [{ sessionId }] and 'status' with a text; arguments of another shape
    do not reach these two listeners and are left out. *)
Definition deliver (e : emission) (s : state) : state :=
  if String.eqb (event e) "session-started" then
    match arg e with
    | p_session_started sid => on_session_started sid s
    | _ => s
    end
  else if String.eqb (event e) "status" then
    match arg e with
    | p_data msg => on_status msg s
    | _ => s
    end
  else if String.eqb (event e) "frame" then on_frame (arg e) s
  else if String.eqb (event e) "worker-disconnected" then on_worker_disconnected s
  else s.

(** [requestSession] (lines 71-75) *)
Definition requestSession (s : state) : state * list (string * payload) :=
  if socket s then
    (State (socket s) "Requesting Isolated Node..." (sessionId s) (frame s) (urlInput s),
     [("request-session", p_data (urlInput s))])
  else (s, []).

(** [terminateSession] (lines 77-83); without a socket [socket.emit] throws
    before any setter runs. *)
Definition terminateSession (s : state) : state * list (string * payload) :=
  if socket s then
    (State (socket s) "Disconnected (Session Ended)" None None (urlInput s),
     [("stop-session", p_undefined)])
  else (s, []).

(** [handleNavigate] (lines 85-95): the new state and the [url] of the
    'browser-event' [{ type: 'navigate', url }] it emits, if it emits one. *)
Definition handleNavigate (s : state) : state * option string :=
  if socket s && has_session s then
    if String.prefix "http" (urlInput s) then (s, Some (urlInput s))
    else
      let target := String.append "https://" (urlInput s) in
      (State (socket s) (status s) (sessionId s) (frame s) target, Some target)
  else (s, None).

End App.

(** The messages a front end emits, as inputs of the gateway from the
    connection [c] it is behind. *)
Definition from_front_end (c : string) (rnd : string) (m : string * payload)
    : string * input :=
  (rnd, Emit c m.1 m.2).

(** The messages the gateway has emitted between [st] and [st']. *)
Definition emitted_between (st st' : state) : list emission :=
  drop (length (outbox st)) (outbox st').

(** The front end behind connection [c] receives, in order, the messages
    addressed to [c]. *)
Definition receive (c : string) (msgs : list emission) (s : App.state) : App.state :=
  foldl (λ s e, if String.eqb (target e) c then App.deliver e s else s) s msgs.

(** ** Failed pairing attempts *)


(** * Properties of the broker *)

(** ** Relay router *)

Section Relay.
Variables (st : state) (sock : string).

Lemma signal_unregistered (a : payload) :
  connections st !! sock = None → signal sock a st = st.
Proof. intros H. unfold signal. by rewrite H. Qed.

Lemma signal_unbound (a : payload) (conn : connection) :
  connections st !! sock = Some conn → truthy (sessionId conn) = false →
  signal sock a st = st.
Proof.
  intros H Hf. unfold signal. rewrite H.
  destruct (sessionId conn); [done | done |]. by rewrite Hf.
Qed.

Lemma signal_dangling (a : payload) (conn : connection) (sid : string) :
  connections st !! sock = Some conn → sessionId conn = sid_str sid →
  sessions st !! sid = None → signal sock a st = st.
Proof.
  intros H Hs Hn. unfold signal. rewrite H, Hs, Hn.
  by destruct (truthy _).
Qed.

Lemma browser_event_unregistered (a : payload) :
  connections st !! sock = None → browser_event sock a st = st.
Proof. intros H. unfold browser_event. by rewrite H. Qed.

Lemma browser_event_unbound (a : payload) (conn : connection) :
  connections st !! sock = Some conn → truthy (sessionId conn) = false →
  browser_event sock a st = st.
Proof.
  intros H Hf. unfold browser_event. rewrite H.
  destruct (sessionId conn); [done | done |]. by rewrite Hf.
Qed.

Lemma browser_event_dangling (a : payload) (conn : connection) (sid : string) :
  connections st !! sock = Some conn → sessionId conn = sid_str sid →
  sessions st !! sid = None → browser_event sock a st = st.
Proof.
  intros H Hs Hn. unfold browser_event. rewrite H, Hs, Hn.
  by destruct (truthy _).
Qed.
End Relay.

(** C9: a relay event ('signal' or 'browser-event') from a connection whose
    Registry entry is absent, whose sessionId is unset (falsy), or whose
    sessionId does not resolve in the Session Table is dropped: the whole
    broker state, including the log of emitted messages, is unchanged; so
    nothing is forwarded, nothing is sent back to the sender, and Registry,
    Pool, Queue and Session Table are untouched. *)
Theorem relay_orphan_dropped (st : state) (rnd sock : string) (a : payload) :
  connections st !! sock = None
  ∨ (∃ conn, connections st !! sock = Some conn ∧ truthy (sessionId conn) = false)
  ∨ (∃ conn sid, connections st !! sock = Some conn
                 ∧ sessionId conn = sid_str sid ∧ sessions st !! sid = None) →
  step st (rnd, Emit sock "signal" a) = st
  ∧ step st (rnd, Emit sock "browser-event" a) = st.
Proof.
  intros Horph. cbn [step]. unfold on. cbn [String.eqb Ascii.eqb Bool.eqb].
  destruct Horph as [Hn | [(conn & Hc & Hf) | (conn & sid & Hc & Hs & Hn)]].
  - split; [by apply signal_unregistered | by apply browser_event_unregistered].
  - split; [by eapply signal_unbound | by eapply browser_event_unbound].
  - split; [by eapply signal_dangling | by eapply browser_event_dangling].
Qed.

Lemma relay_orphan_dropped_witness :
  (∃ conn sid, connections ex_grace !! "W" = Some conn
               ∧ sessionId conn = sid_str sid ∧ sessions ex_grace !! sid = None)
  ∧ step ex_grace ("", Emit "W" "signal" (p_data "offer")) = ex_grace
  ∧ step ex_grace ("", Emit "W" "browser-event" (p_data "offer")) = ex_grace.
Proof.
  assert (H : ∃ conn sid, connections ex_grace !! "W" = Some conn
               ∧ sessionId conn = sid_str sid ∧ sessions ex_grace !! sid = None).
  { exists (Conn worker (Some busy) (sid_str "s1")), "s1".
    split; [|split]; vm_compute; reflexivity. }
  split; [exact H |].
  apply (relay_orphan_dropped ex_grace "" "W" (p_data "offer")). right. right. exact H.
Defined.

(** ** Pairing *)

Section Pairing.
Variables (rnd c w : string) (cfg : payload) (st : state).

Lemma match_other_entry (x : string) :
  x ≠ c → x ≠ w →
  connections (matchClientWithWorker rnd (Some c) (Some w) cfg st) !! x
  = connections st !! x.
Proof.
  intros Hc Hw. unfold matchClientWithWorker.
  destruct (connections st !! c) eqn:Ec.
  - destruct (connections st !! w) eqn:Ew; cbn; [|done].
    by rewrite !lookup_alter_ne.
  - destruct (<[c:=_]> (connections st) !! w) eqn:Ew; cbn.
    + by rewrite !lookup_alter_ne, lookup_insert_ne.
    + by rewrite lookup_insert_ne.
Qed.

Section Success.
Variable wc : connection.
Hypothesis Hw : connections st !! w = Some wc.

Lemma match_commits :
  matchClientWithWorker rnd (Some c) (Some w) cfg st
  = State (alter (set_status busy) w
                 (alter (set_sessionId (sid_str rnd)) w
                    (alter (set_sessionId (sid_str rnd)) c
                       (match connections st !! c with
                        | Some _ => connections st
                        | None => <[c := Conn client None sid_undefined]>
                                    (connections st)
                        end))))
              (<[rnd := Session c w]> (sessions st))
              (waitingClients st) (availableWorkers st) (timers st)
              (outbox st ++ [Emitted w "start-session" cfg;
                             Emitted c "session-started" (p_session_started rnd)]).
Proof.
  unfold matchClientWithWorker.
  destruct (connections st !! c) eqn:Ec.
  - by rewrite Hw.
  - assert (c ≠ w) by congruence.
    by rewrite lookup_insert_ne, Hw.
Qed.

Lemma match_worker_entry :
  connections (matchClientWithWorker rnd (Some c) (Some w) cfg st) !! w
  = Some (Conn (type wc) (Some busy) (sid_str rnd)).
Proof.
  rewrite match_commits. cbn.
  rewrite lookup_alter_eq, lookup_alter_eq.
  destruct (decide (c = w)) as [->|Hne].
  - rewrite lookup_alter_eq, Hw. cbn. by rewrite Hw.
  - rewrite lookup_alter_ne by done.
    destruct (connections st !! c); [|rewrite lookup_insert_ne by done];
      by rewrite Hw.
Qed.

Lemma match_client_entry :
  c ≠ w →
  connections (matchClientWithWorker rnd (Some c) (Some w) cfg st) !! c =
    Some (set_sessionId (sid_str rnd)
            (default (Conn client None sid_undefined) (connections st !! c))).
Proof.
  intros Hne. rewrite match_commits. cbn.
  rewrite !lookup_alter_ne by done. rewrite lookup_alter_eq.
  destruct (connections st !! c) as [cc|] eqn:Ec.
  - by rewrite Ec.
  - by rewrite lookup_insert_eq.
Qed.

Lemma match_client_bound :
  ∃ cc, connections (matchClientWithWorker rnd (Some c) (Some w) cfg st) !! c
        = Some cc ∧ sessionId cc = sid_str rnd.
Proof.
  destruct (decide (c = w)) as [Heq|Hne].
  - exists (Conn (type wc) (Some busy) (sid_str rnd)). split; [|done].
    rewrite <- match_worker_entry. by rewrite Heq.
  - rewrite match_client_entry by done. eauto.
Qed.
End Success.
End Pairing.

Lemma on_register_worker (rnd sock : string) (a : payload) (st : state) :
  on rnd sock "register-worker" a st = register_worker rnd sock st.
Proof. reflexivity. Qed.

Lemma on_request_session (rnd sock : string) (a : payload) (st : state) :
  on rnd sock "request-session" a st = request_session rnd sock a st.
Proof. reflexivity. Qed.


(** C3 (as the code has it): the gateway registers no listener for
    'stop-session', the message [terminateSession] of the front end emits; the
    message changes nothing. In [ex_paired], where client "C" is bound to
    worker "W" by session "s1", the session entry is still there afterwards
    and no 'stop-session' has been sent to "W". *)
Theorem stop_session_ignored :
  (∀ st rnd sock a, step st (rnd, Emit sock "stop-session" a) = st)
  ∧ sessions ex_paired !! "s1" = Some (Session "C" "W")
  ∧ connections ex_paired !! "C" = Some (Conn client None (sid_str "s1"))
  ∧ (let st' := step ex_paired ("", Emit "C" "stop-session" p_undefined) in
     sessions st' !! "s1" = Some (Session "C" "W")
     ∧ outbox st' = outbox ex_paired
     ∧ Emitted "W" "stop-session" p_undefined ∉ outbox st').
Proof.
  split; [reflexivity |].
  split; [vm_compute; reflexivity |].
  split; [vm_compute; reflexivity |].
  cbn zeta. split; [vm_compute; reflexivity |].
  split; [reflexivity |].
  intros H. vm_compute in H.
  repeat (apply elem_of_cons in H as [H|H]; [discriminate H |]).
  by apply elem_of_nil in H.
Qed.

(** ** Registration *)

Lemma register_client_registered (sock : string) (st : state) :
  is_Some (connections st !! sock) → register_client sock st = st.
Proof. intros [conn H]. unfold register_client. by rewrite H. Qed.

Lemma register_client_idempotent (sock : string) (st : state) :
  register_client sock (register_client sock st) = register_client sock st.
Proof.
  apply register_client_registered. unfold register_client.
  destruct (connections st !! sock) eqn:E; cbn; [by rewrite E|].
  by rewrite lookup_insert_eq.
Qed.

(** C4 (as the code has it): 'register-client' is guarded by
    [connections.has] and is idempotent, 'register-worker' is not guarded.
    Registering the busy worker "W" of [ex_paired] again replaces its entry
    (status back to idle, sessionId gone) and pushes it onto the pool while
    session "s1" is still live; registering an idle worker twice puts it in
    the pool twice. *)
Theorem register_worker_not_idempotent :
  (∀ st sock, register_client sock (register_client sock st) = register_client sock st)
  ∧ connections ex_paired !! "W" = Some (Conn worker (Some busy) (sid_str "s1"))
  ∧ availableWorkers ex_paired = []
  ∧ (let st' := step ex_paired ("", Emit "W" "register-worker" p_undefined) in
     connections st' !! "W" = Some (Conn worker (Some idle) sid_undefined)
     ∧ availableWorkers st' = ["W"]
     ∧ sessions st' !! "s1" = Some (Session "C" "W"))
  ∧ availableWorkers
      (run init [("", Emit "W" "register-worker" p_undefined);
                 ("", Emit "W" "register-worker" p_undefined)]) = ["W"; "W"].
Proof.
  split; [intros; apply register_client_idempotent |].
  repeat split; vm_compute; reflexivity.
Qed.

(** C8: a provider that registers while the queue is non-empty is paired at
    once with the head requester, which is dequeued; the pool is left as it
    was, so a provider that was not in the pool is not in it afterwards. Only
    with an empty queue is the provider pushed onto the pool tail. *)
Theorem register_worker_bypass (st : state) (rnd P : string) (a : payload) :
  let st' := step st (rnd, Emit P "register-worker" a) in
  (∀ R rest, waitingClients st = R :: rest →
     waitingClients st' = rest
     ∧ sessions st' = <[rnd := Session R P]> (sessions st)
     ∧ connections st' !! P = Some (Conn worker (Some busy) (sid_str rnd))
     ∧ (∃ rc, connections st' !! R = Some rc ∧ sessionId rc = sid_str rnd)
     ∧ outbox st' = outbox st ++ [Emitted P "start-session" p_undefined;
                                  Emitted R "session-started" (p_session_started rnd)]
     ∧ availableWorkers st' = availableWorkers st
     ∧ (P ∉ availableWorkers st → P ∉ availableWorkers st'))
  ∧ (waitingClients st = [] →
     availableWorkers st' = availableWorkers st ++ [P]
     ∧ connections st' = <[P := Conn worker (Some idle) sid_undefined]> (connections st)
     ∧ sessions st' = sessions st
     ∧ waitingClients st' = []
     ∧ outbox st' = outbox st).
Proof.
  cbn [step]. rewrite on_register_worker. cbn zeta. unfold register_worker. split.
  - intros R rest ->.
    set (st0 := State _ _ rest _ _ _).
    assert (Hw : connections st0 !! P = Some (Conn worker (Some idle) sid_undefined))
      by apply lookup_insert_eq.
    pose proof (match_worker_entry rnd R P p_undefined st0 _ Hw) as HP.
    pose proof (match_client_bound rnd R P p_undefined st0 _ Hw) as HR.
    rewrite (match_commits rnd R P p_undefined st0 _ Hw) in *.
    cbn in *. by repeat split.
  - intros ->. by repeat split.
Qed.

Lemma register_worker_bypass_witness :
  let st := run init [("", Emit "R" "request-session" (p_data "cfg"))] in
  let st' := step st ("s1", Emit "P" "register-worker" p_undefined) in
  waitingClients st = ["R"]
  ∧ waitingClients st' = []
  ∧ sessions st' = <["s1" := Session "R" "P"]> (sessions st)
  ∧ availableWorkers st' = availableWorkers st
  ∧ ("P" ∉ availableWorkers st')
  ∧ waitingClients init = []
  ∧ availableWorkers (step init ("s1", Emit "P" "register-worker" p_undefined)) = ["P"].
Proof.
  cbn zeta.
  destruct (register_worker_bypass
              (run init [("", Emit "R" "request-session" (p_data "cfg"))])
              "s1" "P" p_undefined) as [Hbusy _].
  destruct (Hbusy "R" [] eq_refl) as (Hq & Hs & _ & _ & _ & Hp & Hnp).
  destruct (register_worker_bypass init "s1" "P" p_undefined) as [_ Hidle].
  destruct (Hidle eq_refl) as (Hpool & _).
  split; [reflexivity |].
  split; [exact Hq |]. split; [exact Hs |]. split; [exact Hp |].
  split; [apply Hnp; cbn; apply not_elem_of_nil |].
  split; [reflexivity | exact Hpool].
Defined.

(** ** Pool scan and FIFO matching *)

Lemma takeProvider_cons (conns : gmap string connection) (x : string) (rest : list string) :
  takeProvider conns (x :: rest) =
    if idle_in conns x then (Some x, rest) else takeProvider conns rest.
Proof. cbn. unfold idle_in. by destruct (conns !! x) as [conn|]. Qed.

Lemma takeProvider_hit (conns : gmap string connection) (stale : list string)
    (w : string) (rest : list string) :
  Forall (λ x, idle_in conns x = false) stale → idle_in conns w = true →
  takeProvider conns (stale ++ w :: rest) = (Some w, rest).
Proof.
  intros Hst Hw. induction Hst as [|x stale Hx _ IH].
  - by rewrite app_nil_l, takeProvider_cons, Hw.
  - by rewrite <- app_comm_cons, takeProvider_cons, Hx.
Qed.

Lemma takeProvider_miss (conns : gmap string connection) (pool : list string) :
  Forall (λ x, idle_in conns x = false) pool →
  takeProvider conns pool = (None, []).
Proof.
  induction 1 as [|x pool Hx _ IH]; [done |].
  by rewrite takeProvider_cons, Hx.
Qed.

Lemma idle_in_autoregister (conns : gmap string connection) (c x : string) :
  idle_in (match conns !! c with
           | Some _ => conns
           | None => <[c := Conn client None sid_undefined]> conns
           end) x = idle_in conns x.
Proof.
  destruct (conns !! c) eqn:Ec; [done |]. unfold idle_in.
  destruct (decide (c = x)) as [->|Hne].
  - by rewrite lookup_insert_eq, Ec.
  - by rewrite lookup_insert_ne.
Qed.

Lemma idle_in_Some (conns : gmap string connection) (x : string) :
  idle_in conns x = true → ∃ conn, conns !! x = Some conn ∧ status conn = Some idle.
Proof.
  unfold idle_in, is_idle. destruct (conns !! x) as [conn|]; [|done].
  destruct (status conn) as [[]|] eqn:E; [|done..]. intros _. eauto.
Qed.

Lemma match_idle_other (rnd c w : string) (cfg : payload) (st : state) (x : string) :
  x ≠ w →
  idle_in (connections (matchClientWithWorker rnd (Some c) (Some w) cfg st)) x
  = idle_in (connections st) x.
Proof.
  intros Hne. destruct (decide (x = c)) as [->|Hc].
  - pose proof (idle_in_autoregister (connections st) c c) as Ha.
    unfold matchClientWithWorker. cbn zeta.
    set (conns1 := match connections st !! c with
                   | Some _ => _ | None => _ end) in *.
    destruct (conns1 !! w) eqn:Ew; cbn [connections]; [|done].
    rewrite <- Ha. unfold idle_in.
    rewrite lookup_alter_ne, lookup_alter_ne, lookup_alter_eq by done.
    by destruct (conns1 !! c).
  - unfold idle_in. by rewrite match_other_entry.
Qed.

Lemma register_worker_empty_queue (rnd P : string) (st : state) :
  waitingClients st = [] →
  register_worker rnd P st =
    State (<[P := Conn worker (Some idle) sid_undefined]> (connections st))
          (sessions st) [] (availableWorkers st ++ [P]) (timers st) (outbox st).
Proof. intros H. unfold register_worker. by rewrite H. Qed.

Lemma request_session_hit (rnd sock : string) (cfg : payload) (st : state)
    (w : string) (pool : list string) :
  let conns := match connections st !! sock with
               | Some _ => connections st
               | None => <[sock := Conn client None sid_undefined]> (connections st)
               end in
  takeProvider conns (availableWorkers st) = (Some w, pool) →
  request_session rnd sock cfg st =
    matchClientWithWorker rnd (Some sock) (Some w) cfg
      (State conns (sessions st) (waitingClients st) pool (timers st) (outbox st)).
Proof. intros conns H. unfold request_session. fold conns. by rewrite H. Qed.

Lemma request_session_miss (rnd sock : string) (cfg : payload) (st : state)
    (pool : list string) :
  let conns := match connections st !! sock with
               | Some _ => connections st
               | None => <[sock := Conn client None sid_undefined]> (connections st)
               end in
  takeProvider conns (availableWorkers st) = (None, pool) →
  request_session rnd sock cfg st =
    State conns (sessions st) (waitingClients st ++ [sock]) pool (timers st)
          (outbox st ++ [Emitted sock "status"
                           (p_data "Waiting for available browser engine...")]).
Proof. intros conns H. unfold request_session. fold conns. by rewrite H. Qed.

(** C7: the pool scan returns the first entry that is registered and idle,
    dropping the entries in front of it, and returns nothing (leaving the pool
    empty) when no entry qualifies; and with an empty queue and pool, when
    providers P1, P2 register in that order and requesters R1, R2 then request
    in that order, R1 is paired with P1 and R2 with P2. *)
Theorem fifo_matching (st : state) (P1 P2 R1 R2 r1 r2 s1 s2 : string)
    (a1 a2 c1 c2 : payload) :
  waitingClients st = [] → availableWorkers st = [] → P1 ≠ P2 → s1 ≠ s2 →
  let st' := run st [(r1, Emit P1 "register-worker" a1);
                     (r2, Emit P2 "register-worker" a2);
                     (s1, Emit R1 "request-session" c1);
                     (s2, Emit R2 "request-session" c2)] in
  (sessions st' !! s1 = Some (Session R1 P1)
   ∧ sessions st' !! s2 = Some (Session R2 P2)
   ∧ outbox st' = outbox st ++ [Emitted P1 "start-session" c1;
                                Emitted R1 "session-started" (p_session_started s1);
                                Emitted P2 "start-session" c2;
                                Emitted R2 "session-started" (p_session_started s2)]
   ∧ availableWorkers st' = [] ∧ waitingClients st' = [])
  ∧ (∀ conns stale w rest,
       Forall (λ x, idle_in conns x = false) stale → idle_in conns w = true →
       takeProvider conns (stale ++ w :: rest) = (Some w, rest))
  ∧ (∀ conns pool,
       Forall (λ x, idle_in conns x = false) pool →
       takeProvider conns pool = (None, [])).
Proof.
  intros Hq Hp HP Hs.
  split; [| split; [apply takeProvider_hit | apply takeProvider_miss]].
  cbn [run foldl step]. rewrite !on_register_worker, !on_request_session.
  (* the two registrations fill the pool in order *)
  rewrite (register_worker_empty_queue r1 P1 st Hq), Hp. cbn [app].
  rewrite register_worker_empty_queue by reflexivity.
  cbn [connections sessions availableWorkers timers outbox app].
  set (conns2 := <[P2:=_]> (<[P1:=_]> (connections st))).
  assert (H1 : idle_in conns2 P1 = true).
  { unfold idle_in, conns2. by rewrite lookup_insert_ne, lookup_insert_eq. }
  assert (H2 : idle_in conns2 P2 = true).
  { unfold idle_in, conns2. by rewrite lookup_insert_eq. }
  (* R1 takes P1 *)
  rewrite (request_session_hit s1 R1 c1 _ P1 [P2]); cycle 1.
  { cbn [connections availableWorkers].
    by rewrite takeProvider_cons, idle_in_autoregister, H1. }
  cbn [connections sessions waitingClients availableWorkers timers outbox].
  set (st2 := State _ (sessions st) [] [P2] _ _).
  destruct (idle_in_Some (connections st2) P1) as (w1 & Hw1 & _).
  { unfold st2. cbn [connections]. by rewrite idle_in_autoregister. }
  assert (Hidle2 : idle_in (connections st2) P2 = true).
  { unfold st2. cbn [connections]. by rewrite idle_in_autoregister. }
  pose proof (match_idle_other s1 R1 P1 c1 st2 P2 (not_eq_sym HP)) as Hidle.
  rewrite Hidle2 in Hidle.
  rewrite (match_commits s1 R1 P1 c1 st2 w1 Hw1) in *.
  subst st2. cbn [connections sessions waitingClients availableWorkers timers outbox] in *.
  (* R2 takes P2 *)
  rewrite (request_session_hit s2 R2 c2 _ P2 []); cycle 1.
  { cbn [connections availableWorkers].
    by rewrite takeProvider_cons, idle_in_autoregister, Hidle. }
  cbn [connections sessions waitingClients availableWorkers timers outbox].
  set (st4 := State _ _ [] [] _ _).
  destruct (idle_in_Some (connections st4) P2) as (w2 & Hw2 & _).
  { unfold st4. cbn [connections]. by rewrite idle_in_autoregister, Hidle. }
  rewrite (match_commits s2 R2 P2 c2 st4 w2 Hw2).
  cbn [waitingClients availableWorkers connections sessions timers outbox st4].
  rewrite lookup_insert_ne, !lookup_insert_eq by done.
  rewrite <- app_assoc. by repeat split.
Qed.

Lemma fifo_matching_witness :
  let st' := run init [("", Emit "P1" "register-worker" p_undefined);
                       ("", Emit "P2" "register-worker" p_undefined);
                       ("s1", Emit "R1" "request-session" (p_data "a"));
                       ("s2", Emit "R2" "request-session" (p_data "b"))] in
  sessions st' !! "s1" = Some (Session "R1" "P1")
  ∧ sessions st' !! "s2" = Some (Session "R2" "P2").
Proof.
  cbn zeta.
  destruct (fifo_matching init "P1" "P2" "R1" "R2" "" "" "s1" "s2"
              p_undefined p_undefined (p_data "a") (p_data "b"))
    as [(H1 & H2 & _) _].
  - reflexivity.
  - reflexivity.
  - intros H. discriminate H.
  - intros H. discriminate H.
  - split; [exact H1 | exact H2].
Defined.

(** ** Disconnect reclaimer *)

Lemma alter_lookup_insert (f : connection → connection)
    (m : gmap string connection) (i : string) (x : connection) :
  m !! i = Some x → alter f i m = <[i := f x]> m.
Proof.
  intros H. apply map_eq. intros j. destruct (decide (i = j)) as [->|Hne].
  - by rewrite lookup_alter_eq, lookup_insert_eq, H.
  - by rewrite lookup_alter_ne, lookup_insert_ne.
Qed.

Lemma reclaim_registered (w : string) (st : state) (wc : connection) :
  connections st !! w = Some wc →
  reclaim w st =
    State (<[w := Conn (type wc) (Some idle) sid_null]> (connections st))
          (sessions st) (waitingClients st) (availableWorkers st ++ [w])
          (timers st) (outbox st).
Proof.
  intros H. unfold reclaim. rewrite H. f_equal.
  rewrite (alter_lookup_insert (set_status idle) _ _ _ H).
  rewrite (alter_lookup_insert _ _ w (set_status idle wc)) by apply lookup_insert_eq.
  by rewrite insert_insert_eq.
Qed.

Lemma reclaim_gone (w : string) (st : state) :
  connections st !! w = None → reclaim w st = st.
Proof. intros H. unfold reclaim. by rewrite H. Qed.

Lemma disconnect_bound_client (c S : string) (conn : connection) (sess : session)
    (st : state) :
  connections st !! c = Some conn → type conn = client →
  sessionId conn = sid_str S → S ≠ "" → sessions st !! S = Some sess →
  disconnect c st =
    State (delete c (connections st)) (delete S (sessions st))
          (remove_first c (waitingClients st)) (availableWorkers st)
          (timers st ++ [workerSocket sess])
          (outbox st ++ [Emitted (workerSocket sess) "stop-session" p_undefined]).
Proof.
  intros Hc Ht Hs HS Hsess. unfold disconnect. rewrite Hc, Ht, Hs, Hsess.
  cbn [truthy]. apply String.eqb_neq in HS. by rewrite HS.
Qed.

Lemma disconnect_unregisters (x : string) (st : state) :
  connections (disconnect x st) !! x = None.
Proof.
  unfold disconnect. destruct (connections st !! x) eqn:E; [|done].
  cbn. apply lookup_delete_eq.
Qed.

(** C6: when a requester bound to session S disconnects, the bound provider
    is sent 'stop-session', S is deleted from the Session Table and the
    requester from the Registry at once, and a reclaim of the provider is
    scheduled. When that timer fires: if the provider is still in the Registry
    its status becomes idle, its sessionId is cleared and it is appended to
    the pool tail; if it is no longer in the Registry, as after its own
    disconnect, nothing is re-admitted (Registry and pool are left as they
    are). *)
Theorem delayed_reclaim (st : state) (rnd c S : string) (conn : connection)
    (sess : session) :
  connections st !! c = Some conn → type conn = client →
  sessionId conn = sid_str S → S ≠ "" → sessions st !! S = Some sess →
  let w := workerSocket sess in
  let st' := step st (rnd, Disconnect c) in
  outbox st' = outbox st ++ [Emitted w "stop-session" p_undefined]
  ∧ sessions st' = delete S (sessions st)
  ∧ sessions st' !! S = None
  ∧ connections st' = delete c (connections st)
  ∧ availableWorkers st' = availableWorkers st
  ∧ timers st' = timers st ++ [w]
  ∧ (∀ st1 r, connections (step st1 (r, Disconnect w)) !! w = None)
  ∧ ∀ (st2 : state) (rest : list string) (r : string),
      timers st2 = w :: rest →
      let st3 := step st2 (r, TimerFire) in
      timers st3 = rest
      ∧ sessions st3 = sessions st2
      ∧ waitingClients st3 = waitingClients st2
      ∧ outbox st3 = outbox st2
      ∧ match connections st2 !! w with
        | Some wc =>
            connections st3 =
              <[w := Conn (type wc) (Some idle) sid_null]> (connections st2)
            ∧ availableWorkers st3 = availableWorkers st2 ++ [w]
        | None =>
            connections st3 = connections st2
            ∧ availableWorkers st3 = availableWorkers st2
        end.
Proof.
  intros Hc Ht Hs HS Hsess w st'. subst st'. cbn [step].
  rewrite (disconnect_bound_client c S conn sess st Hc Ht Hs HS Hsess).
  cbn [connections sessions waitingClients availableWorkers timers outbox].
  repeat split; [apply lookup_delete_eq | intros; apply disconnect_unregisters | ..];
    intros; cbn [step]; rewrite H;
    (destruct (connections st2 !! w) as [wc|] eqn:Ew;
     [ erewrite reclaim_registered by exact Ew
     | rewrite reclaim_gone by exact Ew ]); try done.
  all: cbn; by rewrite ?Ew.
Qed.

Lemma delayed_reclaim_witness :
  let st' := step ex_paired ("", Disconnect "C") in
  let st3 := step st' ("", TimerFire) in
  outbox st' = outbox ex_paired ++ [Emitted "W" "stop-session" p_undefined]
  ∧ sessions st' !! "s1" = None
  ∧ timers st' = ["W"]
  ∧ connections st3 =
      <["W" := Conn worker (Some idle) sid_null]> (connections st')
  ∧ availableWorkers st3 = ["W"].
Proof.
  cbn zeta.
  destruct (delayed_reclaim ex_paired "" "C" "s1"
              (Conn client None (sid_str "s1")) (Session "C" "W"))
    as (Ho & _ & Hs & _ & _ & Ht & _ & Hfire).
  - vm_compute; reflexivity.
  - reflexivity.
  - reflexivity.
  - intros H; discriminate H.
  - vm_compute; reflexivity.
  - destruct (Hfire (step ex_paired ("", Disconnect "C")) [] "" Ht)
      as (_ & _ & _ & _ & Hm).
    split; [exact Ho |]. split; [exact Hs |]. split; [exact Ht |].
    exact Hm.
Defined.

(** ** Consistency under conforming inputs *)

Section Consistency.
Implicit Types (conns : gmap string connection) (ss : gmap string session).
Implicit Types (q t : list string) (x c w sid rnd : string).


Lemma unbound_delete ss x sid : unbound ss x → unbound (delete sid ss) x.
Proof.
  intros Hu sid' s Hs. apply lookup_delete_Some in Hs as [_ Hs]. by eapply Hu.
Qed.

Lemma unbound_insert ss x sid c w :
  unbound ss x → x ≠ c → x ≠ w → unbound (<[sid := Session c w]> ss) x.
Proof.
  intros Hu Hc Hw. apply map_Forall_insert_2; [|done].
  unfold appears; cbn. intros [?|?]; congruence.
Qed.

(** A peer of a consistent session carries that session's id. *)
Lemma peer_sessionId conns ss q t x sid s conn :
  consistent conns ss q t → ss !! sid = Some s → appears x s →
  conns !! x = Some conn → sessionId conn = sid_str sid ∧ sid ≠ "".
Proof.
  intros Hc Hs Hx Hconn.
  destruct (cons_sessions _ _ _ _ Hc sid s Hs)
    as (Hne & (cc & Hcc & _ & Hcs) & (wc & Hwc & _ & _ & Hws)).
  destruct Hx as [<-|<-]; simplify_eq; done.
Qed.

(** An unregistered id is a peer of no session. *)
Lemma unregistered_unbound conns ss q t x :
  consistent conns ss q t → conns !! x = None → unbound ss x.
Proof.
  intros Hc Hn sid s Hs.
  destruct (cons_sessions _ _ _ _ Hc sid s Hs) as (_ & (cc & Hcc & _) & (wc & Hwc & _)).
  intros [<-|<-]; congruence.
Qed.

(** Changing entries of connections that are peers of no session keeps the
    sessions consistent. *)
Lemma sessions_frame conns conns' ss :
  map_Forall (session_ok conns) ss →
  (∀ x, ¬ unbound ss x → conns' !! x = conns !! x) →
  map_Forall (session_ok conns') ss.
Proof.
  intros Hs Hfr sid s Hsid.
  destruct (Hs sid s Hsid) as (Hne & (cc & Hcc & Hc) & (wc & Hwc & Hw)).
  split; [done|]. split.
  - exists cc. split; [|done]. rewrite Hfr; [done|].
    intros Hu. apply (Hu sid s Hsid). by left.
  - exists wc. split; [|done]. rewrite Hfr; [done|].
    intros Hu. apply (Hu sid s Hsid). by right.
Qed.

(** A connection is a peer only of the session its own [sessionId] names. *)
Lemma unbound_after_delete conns ss q t x conn sid :
  consistent conns ss q t → conns !! x = Some conn →
  sessionId conn = sid_str sid → unbound (delete sid ss) x.
Proof.
  intros Hc Hx Hsid sid' s Hs Happ.
  apply lookup_delete_Some in Hs as [Hne Hs].
  destruct (peer_sessionId _ _ _ _ _ _ _ _ Hc Hs Happ Hx) as [E _]. congruence.
Qed.

Lemma unbound_falsy conns ss q t x conn :
  consistent conns ss q t → conns !! x = Some conn →
  truthy (sessionId conn) = false → unbound ss x.
Proof.
  intros Hc Hx Hf sid s Hs Happ.
  destruct (peer_sessionId _ _ _ _ _ _ _ _ Hc Hs Happ Hx) as [E Hne].
  rewrite E in Hf. cbn in Hf. apply String.eqb_neq in Hne.
  rewrite Hne in Hf. discriminate.
Qed.

Section Frames.
Variables (conns : gmap string connection) (ss : gmap string session).
Variables (q t : list string).
Hypothesis Hc : consistent conns ss q t.

(** A new Registry entry for an id the broker does not know. *)
Lemma consistent_insert_new x new :
  conns !! x = None → x ∉ t → (type new = client → status new = None) →
  sessionId new = sid_undefined →
  consistent (<[x := new]> conns) ss q t.
Proof.
  intros Hx Ht Hnew Hsid. destruct Hc as [Hs Hr Hcl Htm Htn Hq Hqn]. split; try done.
  - apply (sessions_frame conns); [done|]. intros y Hy.
    apply lookup_insert_ne. intros ->. apply Hy.
    by eapply unregistered_unbound.
  - intros y conn sid s [[-> <-]|[_ Hy]]%lookup_insert_Some; [congruence | eauto].
  - intros y conn [[-> <-]|[_ Hy]]%lookup_insert_Some; eauto.
  - intros y Hy. destruct (Htm y Hy) as [Hu Hw]. split; [done|].
    intros conn Hconn. apply Hw. rewrite lookup_insert_ne in Hconn; [done|].
    by intros ->.
  - intros y Hy. destruct (Hq y Hy) as [Hu (conn & Hconn & Hty)].
    split; [done|]. exists conn. split; [|done].
    rewrite lookup_insert_ne; [done|]. intros ->. congruence.
Qed.

(** The queue may lose entries. *)
Lemma consistent_queue_sub q' :
  NoDup q' → (∀ x, x ∈ q' → x ∈ q) → consistent conns ss q' t.
Proof.
  intros Hnd Hsub. destruct Hc as [Hs Hr Hcl Htm Htn Hq Hqn]. split; auto.
Qed.

Lemma consistent_queue_push x cc :
  x ∉ q → unbound ss x → conns !! x = Some cc → type cc = client →
  consistent conns ss (q ++ [x]) t.
Proof.
  intros Hx Hu Hcc Hty. destruct Hc as [Hs Hr Hcl Htm Htn Hq Hqn]. split; auto.
  - intros y [Hy|Hy]%elem_of_app; [auto|].
    apply list_elem_of_singleton in Hy as ->. eauto.
  - apply NoDup_app. split; [done|]. split; [|apply NoDup_singleton].
    intros y Hy ->%list_elem_of_singleton. done.
Qed.

(** Pending reclaims: the oldest one fires, a new one is scheduled. *)
Lemma consistent_timers_pop w rest :
  t = w :: rest → consistent conns ss q rest ∧ w ∉ rest.
Proof.
  intros ->. destruct Hc as [Hs Hr Hcl Htm Htn Hq Hqn].
  apply NoDup_cons in Htn as [Hw Hrest]. split; [|done].
  split; auto. intros y Hy. apply Htm. by right.
Qed.

Lemma consistent_timers_push w :
  unbound ss w → w ∉ t →
  (∀ conn, conns !! w = Some conn → type conn = worker ∧ status conn = Some busy) →
  consistent conns ss q (t ++ [w]).
Proof.
  intros Hu Hw Hconn. destruct Hc as [Hs Hr Hcl Htm Htn Hq Hqn]. split; auto.
  - intros y [Hy|Hy]%elem_of_app; [auto|].
    apply list_elem_of_singleton in Hy as ->. eauto.
  - apply NoDup_app. split; [done|]. split; [|apply NoDup_singleton].
    intros y Hy ->%list_elem_of_singleton. done.
Qed.

(** The Session Table may lose entries. *)
Lemma consistent_delete_session sid : consistent conns (delete sid ss) q t.
Proof.
  destruct Hc as [Hs Hr Hcl Htm Htn Hq Hqn]. split; auto.
  - intros sid' s [_ Hsid]%lookup_delete_Some. by apply Hs.
  - intros y conn sid' s Hy Hsid [_ Hs']%lookup_delete_Some. eauto.
  - intros y Hy. destruct (Htm y Hy). split; [by apply unbound_delete | done].
  - intros y Hy. destruct (Hq y Hy). split; [by apply unbound_delete | done].
Qed.

(** A connection that is a peer of no session and is not waiting leaves
    the Registry. *)
Lemma consistent_delete_conn x :
  unbound ss x → x ∉ q → consistent (delete x conns) ss q t.
Proof.
  intros Hu Hx. destruct Hc as [Hs Hr Hcl Htm Htn Hq Hqn]. split; auto.
  - apply (sessions_frame conns); [done|]. intros y Hy.
    apply lookup_delete_ne. by intros ->.
  - intros y conn sid s [_ Hy]%lookup_delete_Some. eauto.
  - intros y conn [_ Hy]%lookup_delete_Some. eauto.
  - intros y Hy. destruct (Htm y Hy) as [? Hw]. split; [done|].
    intros conn [_ Hconn]%lookup_delete_Some. eauto.
  - intros y Hy. destruct (Hq y Hy) as [? (conn & Hconn & Hty)].
    split; [done|]. exists conn. split; [|done].
    apply lookup_delete_Some. split; [|done]. by intros ->.
Qed.

(** The reclaim of a provider that is a peer of no session. *)
Lemma consistent_reclaim w wc :
  unbound ss w → w ∉ t → conns !! w = Some wc → type wc = worker →
  consistent (<[w := Conn (type wc) (Some idle) sid_null]> conns) ss q t.
Proof.
  intros Hu Hw Hwc Hty. destruct Hc as [Hs Hr Hcl Htm Htn Hq Hqn]. split; auto.
  - apply (sessions_frame conns); [done|]. intros y Hy.
    apply lookup_insert_ne. by intros ->.
  - intros y conn sid s [[-> <-]|[_ Hy]]%lookup_insert_Some; [done | eauto].
  - intros y conn [[-> <-]|[_ Hy]]%lookup_insert_Some; [|eauto].
    cbn. congruence.
  - intros y Hy. destruct (Htm y Hy) as [? Hb]. split; [done|].
    intros conn Hconn. apply Hb. rewrite lookup_insert_ne in Hconn; [done|].
    by intros ->.
  - intros y Hy. destruct (Hq y Hy) as [? (conn & Hconn & Hcty)].
    split; [done|]. exists conn. split; [|done].
    rewrite lookup_insert_ne; [done|]. intros ->. congruence.
Qed.

(** The commit of a pairing between a registered requester and a
    registered provider, neither a peer of a live session. *)
Lemma consistent_pair rnd c w cc wc :
  rnd ≠ "" → ss !! rnd = None →
  map_Forall (λ _ conn, sessionId conn ≠ sid_str rnd) conns → c ≠ w →
  conns !! c = Some cc → type cc = client →
  conns !! w = Some wc → type wc = worker →
  unbound ss c → unbound ss w → c ∉ q → w ∉ t →
  consistent
    (alter (set_status busy) w
       (alter (set_sessionId (sid_str rnd)) w
          (alter (set_sessionId (sid_str rnd)) c conns)))
    (<[rnd := Session c w]> ss) q t.
Proof.
  intros Hrnd Hfresh Hnew Hne Hcc Hcty Hwc Hwty Huc Huw Hcq Hwt.
  assert (Heq : alter (set_status busy) w
                  (alter (set_sessionId (sid_str rnd)) w
                     (alter (set_sessionId (sid_str rnd)) c conns))
                = <[w := Conn worker (Some busy) (sid_str rnd)]>
                    (<[c := set_sessionId (sid_str rnd) cc]> conns)).
  { rewrite (alter_lookup_insert _ conns c cc Hcc).
    rewrite (alter_lookup_insert (set_sessionId (sid_str rnd)) _ w wc)
      by by rewrite lookup_insert_ne.
    rewrite (alter_lookup_insert _ _ w (set_sessionId (sid_str rnd) wc))
      by apply lookup_insert_eq.
    rewrite insert_insert_eq. unfold set_status, set_sessionId. cbn.
    by rewrite Hwty. }
  rewrite Heq. clear Heq.
  assert (Hother : ∀ y, y ≠ c → y ≠ w →
            <[w := Conn worker (Some busy) (sid_str rnd)]>
              (<[c := set_sessionId (sid_str rnd) cc]> conns) !! y = conns !! y).
  { intros y Hyc Hyw. by rewrite !lookup_insert_ne. }
  destruct Hc as [Hs Hr Hcl Htm Htn Hq Hqn]. split; auto.
  - apply map_Forall_insert_2.
    + split; [done|]. cbn. split.
      * exists (set_sessionId (sid_str rnd) cc).
        by rewrite lookup_insert_ne, lookup_insert_eq.
      * exists (Conn worker (Some busy) (sid_str rnd)).
        by rewrite lookup_insert_eq.
    + apply (sessions_frame conns); [done|]. intros y Hy.
      apply Hother; intros ->; done.
  - intros y conn sid s Hy Hsid Hsess.
    destruct (decide (y = w)) as [->|Hyw].
    { rewrite lookup_insert_eq in Hy. simplify_eq. cbn in Hsid. simplify_eq.
      rewrite lookup_insert_eq in Hsess. simplify_eq. by right. }
    destruct (decide (y = c)) as [->|Hyc].
    { rewrite lookup_insert_ne, lookup_insert_eq in Hy by done.
      simplify_eq. cbn in Hsid. simplify_eq.
      rewrite lookup_insert_eq in Hsess. simplify_eq. by left. }
    rewrite Hother in Hy by done.
    assert (sid ≠ rnd) by (intros ->; by apply (Hnew y conn Hy)).
    rewrite lookup_insert_ne in Hsess by done. eauto.
  - intros y conn Hy. destruct (decide (y = w)) as [->|Hyw].
    { rewrite lookup_insert_eq in Hy. by simplify_eq. }
    rewrite lookup_insert_ne in Hy by done.
    apply lookup_insert_Some in Hy as [[-> <-]|[_ Hy]]; [|eauto].
    cbn. eauto.
  - intros y Hy. destruct (Htm y Hy) as [Hu Hb].
    assert (y ≠ c).
    { intros ->. destruct (Hb cc Hcc). congruence. }
    assert (y ≠ w) by (by intros ->).
    split; [by apply unbound_insert|].
    intros conn Hconn. rewrite Hother in Hconn by done. auto.
  - intros y Hy. destruct (Hq y Hy) as [Hu (conn & Hconn & Hty)].
    assert (y ≠ c) by (by intros ->).
    assert (y ≠ w) by (intros ->; congruence).
    split; [by apply unbound_insert|].
    exists conn. by rewrite Hother.
Qed.
End Frames.
End Consistency.

Lemma remove_first_elem_of (x y : string) (l : list string) :
  y ∈ remove_first x l → y ∈ l.
Proof.
  induction l as [|z l IH]; cbn; [done|].
  destruct (String.eqb x z); [by right|].
  intros [->|H]%elem_of_cons; [by left | right; auto].
Qed.

Lemma remove_first_NoDup (x : string) (l : list string) :
  NoDup l → NoDup (remove_first x l) ∧ x ∉ remove_first x l.
Proof.
  induction 1 as [|z l Hz Hl IH]; cbn.
  - split; [constructor | apply not_elem_of_nil].
  - destruct (String.eqb x z) eqn:E.
    + apply String.eqb_eq in E as ->. done.
    + apply String.eqb_neq in E. destruct IH as [IH1 IH2]. split.
      * constructor; [|done]. intros H. by apply Hz, (remove_first_elem_of x).
      * intros [->|H]%elem_of_cons; done.
Qed.

Lemma takeProvider_Some (conns : gmap string connection) (pool : list string)
    (w : string) (rest : list string) :
  takeProvider conns pool = (Some w, rest) → idle_in conns w = true.
Proof.
  induction pool as [|x pool IH]; [done|].
  rewrite takeProvider_cons. destruct (idle_in conns x) eqn:E; [|done].
  by intros [= <- _].
Qed.

(** The provider handed to [matchClientWithWorker] by 'request-session' is in
    the Registry, as is the one handed over by 'register-worker', whose entry
    has just been set: neither handler reaches the abort branch of the
    pairing. *)
Lemma takeProvider_registered (conns : gmap string connection) (pool : list string)
    (w : string) (rest : list string) :
  takeProvider conns pool = (Some w, rest) → is_Some (conns !! w).
Proof.
  intros H. apply takeProvider_Some, idle_in_Some in H as (conn & Hconn & _).
  by exists conn.
Qed.

Section Handlers.
Variable st : state.
Hypothesis HI : Inv st.

Lemma Inv_register_client (x : string) :
  (connections st !! x = None → x ∉ timers st) → Inv (register_client x st).
Proof.
  intros Hx. unfold register_client.
  destruct (connections st !! x) eqn:E; [done|].
  apply consistent_insert_new; auto.
Qed.

Lemma Inv_emit (tg e : string) (a : payload) : Inv (emit tg e a st).
Proof. exact HI. Qed.

Lemma Inv_signal (x : string) (a : payload) : Inv (signal x a st).
Proof. unfold signal. repeat case_match; first [exact HI | apply Inv_emit]. Qed.

Lemma Inv_browser_event (x : string) (a : payload) : Inv (browser_event x a st).
Proof. unfold browser_event. repeat case_match; first [exact HI | apply Inv_emit]. Qed.

(** An idle Registry entry is a provider that is a peer of no session and
    has no reclaim pending. *)
Lemma idle_provider_free (conns : gmap string connection) (w : string) :
  consistent conns (sessions st) (waitingClients st) (timers st) →
  idle_in conns w = true →
  ∃ wc, conns !! w = Some wc ∧ type wc = worker
        ∧ unbound (sessions st) w ∧ w ∉ timers st.
Proof.
  intros Hc (wc & Hwc & Hidle)%idle_in_Some. exists wc.
  assert (Hty : type wc = worker).
  { destruct (type wc) eqn:E; [done|].
    rewrite (cons_clients _ _ _ _ Hc w wc Hwc E) in Hidle. discriminate. }
  split; [done|]. split; [done|]. split.
  - intros sid s Hs Happ.
    destruct (cons_sessions _ _ _ _ Hc sid s Hs)
      as (_ & (cc & Hcc & Hcty & _) & (wc' & Hwc' & _ & Hbusy & _)).
    destruct Happ as [<-|<-]; simplify_eq; congruence.
  - intros Ht. destruct (cons_timers _ _ _ _ Hc w Ht) as [_ Hb].
    destruct (Hb wc Hwc). congruence.
Qed.

Lemma Inv_request_session (rnd x : string) (cfg : payload) :
  match connections st !! x with
  | Some conn => type conn = client
  | None => x ∉ timers st
  end →
  x ∉ waitingClients st → unbound (sessions st) x → token_ok st rnd →
  Inv (request_session rnd x cfg st).
Proof.
  intros Hx Hq Hu (Hrnd & Hfresh & Hnew).
  set (conns := match connections st !! x with
                | Some _ => connections st
                | None => <[x := Conn client None sid_undefined]> (connections st)
                end).
  assert (Hc : consistent conns (sessions st) (waitingClients st) (timers st)).
  { unfold conns. destruct (connections st !! x) eqn:E; [exact HI|].
    apply consistent_insert_new; auto. }
  assert (Hnew' : map_Forall (λ _ conn, sessionId conn ≠ sid_str rnd) conns).
  { unfold conns. destruct (connections st !! x) eqn:E; [exact Hnew|].
    by apply map_Forall_insert_2. }
  assert (Hreg : ∃ cc, conns !! x = Some cc ∧ type cc = client).
  { unfold conns. destruct (connections st !! x) as [cc|] eqn:E; [eauto|].
    rewrite lookup_insert_eq. eauto. }
  destruct Hreg as (cc & Hcc & Hcty).
  destruct (takeProvider conns (availableWorkers st)) as [[w|] pool] eqn:Etake.
  - rewrite (request_session_hit rnd x cfg st w pool Etake). fold conns.
    destruct (idle_provider_free conns w Hc (takeProvider_Some _ _ _ _ Etake))
      as (wc & Hwc & Hwty & Huw & Hwt).
    set (st1 := State conns _ _ pool _ _).
    rewrite (match_commits rnd x w cfg st1 wc Hwc).
    unfold Inv, st1. cbn [connections sessions waitingClients timers].
    rewrite Hcc.
    apply (consistent_pair _ _ _ _ Hc rnd x w cc wc); try done.
    intros ->. congruence.
  - rewrite (request_session_miss rnd x cfg st pool Etake). fold conns.
    unfold Inv. cbn [connections sessions waitingClients timers].
    by apply (consistent_queue_push _ _ _ _ Hc x cc).
Qed.

Lemma Inv_register_worker (rnd x : string) :
  connections st !! x = None → x ∉ timers st → token_ok st rnd →
  Inv (register_worker rnd x st).
Proof.
  intros Hx Ht (Hrnd & Hfresh & Hnew). unfold register_worker.
  set (conns := <[x := _]> (connections st)).
  assert (Hc : consistent conns (sessions st) (waitingClients st) (timers st)).
  { apply consistent_insert_new; auto. done. }
  assert (Hnew' : map_Forall (λ _ conn, sessionId conn ≠ sid_str rnd) conns)
    by (by apply map_Forall_insert_2).
  destruct (waitingClients st) as [|R rest] eqn:Eq.
  - exact Hc.
  - pose proof (cons_queue_nodup _ _ _ _ Hc) as [HR Hrest]%NoDup_cons.
    destruct (cons_queue _ _ _ _ Hc R) as [HuR (rc & Hrc & Hrty)]; [by left|].
    assert (Hc' : consistent conns (sessions st) rest (timers st)).
    { apply (consistent_queue_sub _ _ _ _ Hc); [done|]. intros y Hy. by right. }
    set (st0 := State conns _ rest _ _ _).
    rewrite (match_commits rnd R x p_undefined st0 _ (lookup_insert_eq _ _ _)).
    unfold Inv, st0. cbn [connections sessions waitingClients timers].
    rewrite Hrc.
    apply (consistent_pair _ _ _ _ Hc' rnd R x rc
             (Conn worker (Some idle) sid_undefined)); try done.
    + intros ->. unfold conns in Hrc. rewrite lookup_insert_eq in Hrc.
      by simplify_eq.
    + apply lookup_insert_eq.
    + exact (unregistered_unbound _ _ _ _ _ HI Hx).
Qed.

Lemma Inv_timer_fire (rnd : string) : Inv (step st (rnd, TimerFire)).
Proof.
  cbn [step]. destruct (timers st) as [|w rest] eqn:Et; [exact HI|].
  unfold Inv in HI. rewrite Et in HI.
  destruct (consistent_timers_pop _ _ _ _ HI w rest eq_refl) as [Hc Hw].
  destruct (cons_timers _ _ _ _ HI w) as [Hu Hb]; [by left|].
  set (st0 := State _ _ _ _ rest _).
  destruct (connections st !! w) as [wc|] eqn:Ew.
  - rewrite (reclaim_registered w st0 wc Ew).
    destruct (Hb wc eq_refl) as [Hty _].
    by apply (consistent_reclaim _ _ _ _ Hc).
  - by rewrite (reclaim_gone w st0 Ew).
Qed.
End Handlers.

Lemma Inv_disconnect (st : state) (x : string) : Inv st → Inv (disconnect x st).
Proof.
  intros HI. unfold disconnect.
  destruct (connections st !! x) as [conn|] eqn:Ex; [|exact HI].
  pose proof (remove_first_NoDup x _ (cons_queue_nodup _ _ _ _ HI)) as [Hnd Hnq].
  assert (Hfalsy : truthy (sessionId conn) = false → unbound (sessions st) x)
    by (by apply (unbound_falsy _ _ _ _ _ _ HI)).
  destruct (type conn) eqn:Ety.
  - (* a worker leaves *)
    assert (Hq : x ∉ waitingClients st).
    { intros Hq. destruct (cons_queue _ _ _ _ HI x Hq) as [_ (c' & Hc' & Hty)].
      congruence. }
    destruct (sessionId conn) as [| |sid] eqn:Esid;
      [ apply (consistent_delete_conn _ _ _ _ HI); auto
      | apply (consistent_delete_conn _ _ _ _ HI); auto |].
    destruct (truthy (sid_str sid)) eqn:Etr.
    + apply consistent_delete_conn; [by apply consistent_delete_session | | done].
      by apply (unbound_after_delete _ _ _ _ _ conn _ HI).
    + apply (consistent_delete_conn _ _ _ _ HI); auto.
  - (* a client leaves *)
    destruct (sessionId conn) as [| |sid] eqn:Esid.
    1,2: apply consistent_delete_conn; [|by auto|done];
         apply (consistent_queue_sub _ _ _ _ HI); [done|];
         intros y; apply remove_first_elem_of.
    destruct (truthy (sid_str sid)) eqn:Etr; cycle 1.
    { apply consistent_delete_conn; [|by auto|done].
      apply (consistent_queue_sub _ _ _ _ HI); [done|].
      intros y; apply remove_first_elem_of. }
    pose proof (unbound_after_delete _ _ _ _ _ conn _ HI Ex Esid) as Hux.
    pose proof (consistent_delete_session _ _ _ _ HI sid) as Hdel.
    destruct (sessions st !! sid) as [s|] eqn:Es;
      cbn [connections sessions waitingClients availableWorkers timers outbox].
    + (* the reclaim of the provider is scheduled *)
      destruct (cons_sessions _ _ _ _ HI sid s Es)
        as (_ & _ & (wc & Hwc & Hwty & Hbusy & Hwsid)).
      apply consistent_delete_conn; [|done|done].
      apply (consistent_queue_sub _ _ (waitingClients st));
        [|done|intros y; apply remove_first_elem_of].
      apply (consistent_timers_push _ _ _ _ Hdel).
      * by apply (unbound_after_delete _ _ _ _ _ wc _ HI).
      * intros Ht. destruct (cons_timers _ _ _ _ HI _ Ht) as [Hu _].
        apply (Hu sid s Es). by right.
      * intros c' Hc'. by simplify_eq.
    + apply consistent_delete_conn; [|done|done].
      apply (consistent_queue_sub _ _ _ _ Hdel); [done|].
      intros y; apply remove_first_elem_of.
Qed.

Lemma Inv_init : Inv init.
Proof.
  split; cbn.
  - apply map_Forall_empty.
  - intros x conn sid s H. by rewrite lookup_empty in H.
  - intros x conn H. by rewrite lookup_empty in H.
  - intros x H. by apply elem_of_nil in H.
  - constructor.
  - intros x H. by apply elem_of_nil in H.
  - constructor.
Qed.

Lemma Inv_step (st : state) (i : string * input) :
  Inv st → conforming_input st i → Inv (step st i).
Proof.
  intros HI Hi. destruct i as [rnd [x name a|x|]].
  - cbn [step]. unfold on. cbn [conforming_input] in Hi.
    destruct (String.eqb name "register-worker").
    { destruct Hi as (Hx & Ht & Htok). by apply Inv_register_worker. }
    destruct (String.eqb name "register-client").
    { by apply Inv_register_client. }
    destruct (String.eqb name "request-session").
    { destruct Hi as (Hx & Hq & Hu & Htok). by apply Inv_request_session. }
    destruct (String.eqb name "signal"); [by apply Inv_signal|].
    destruct (String.eqb name "browser-event"); [by apply Inv_browser_event|].
    exact HI.
  - by apply Inv_disconnect.
  - by apply Inv_timer_fire.
Qed.

Lemma Inv_run (tr : list (string * input)) (st : state) :
  Inv st → conforming st tr → Inv (run st tr).
Proof.
  revert st. induction tr as [|i tr IH]; intros st HI Hc; [exact HI|].
  destruct Hc as [Hi Hc]. cbn [run foldl]. apply IH; [|exact Hc].
  by apply Inv_step.
Qed.

(** ** Session binding *)

Lemma Inv_peer_registered (st : state) (x sid : string) (s : session) :
  Inv st → sessions st !! sid = Some s → appears x s →
  ∃ conn, connections st !! x = Some conn
          ∧ sessionId conn = sid_str sid ∧ truthy (sessionId conn) = true.
Proof.
  intros HI Hs Happ.
  destruct (cons_sessions _ _ _ _ HI sid s Hs)
    as (Hne & (cc & Hcc & _ & Hcs) & (wc & Hwc & _ & _ & Hws)).
  apply String.eqb_neq in Hne.
  destruct Happ as [<-|<-]; [exists cc | exists wc];
    (split; [done|]); (split; [done|]).
  - rewrite Hcs. cbn. by rewrite Hne.
  - rewrite Hws. cbn. by rewrite Hne.
Qed.

Lemma Inv_no_double_binding (st : state) : Inv st → no_double_binding st.
Proof.
  intros HI x sid sid' s s' Hs Hs' Hx Hx'.
  destruct (Inv_peer_registered st x sid s HI Hs Hx) as (conn & Hconn & E & _).
  destruct (Inv_peer_registered st x sid' s' HI Hs' Hx') as (conn' & Hconn' & E' & _).
  congruence.
Qed.

Lemma Inv_distinct_peers (st : state) : Inv st → distinct_peers st.
Proof.
  intros HI sid s Hs Heq.
  destruct (cons_sessions _ _ _ _ HI sid s Hs)
    as (_ & (cc & Hcc & Hcty & _) & (wc & Hwc & Hwty & _)).
  rewrite Heq in Hcc. congruence.
Qed.

(** What a step can do to the Session Table: nothing, delete one entry, or
    set the entry of the token drawn in this step. *)
Lemma match_sessions (rnd : string) (c w : option string) (cfg : payload) (st : state) :
  sessions (matchClientWithWorker rnd c w cfg st) = sessions st
  ∨ ∃ c' w', sessions (matchClientWithWorker rnd c w cfg st)
             = <[rnd := Session c' w']> (sessions st).
Proof. unfold matchClientWithWorker. repeat case_match; cbn; eauto. Qed.

Lemma step_sessions (st : state) (i : string * input) :
  sessions (step st i) = sessions st
  ∨ (∃ sid, sessions (step st i) = delete sid (sessions st))
  ∨ (∃ c w, sessions (step st i) = <[i.1 := Session c w]> (sessions st)).
Proof.
  destruct i as [rnd [x name a|x|]]; cbn [step fst].
  - unfold on.
    destruct (String.eqb name "register-worker").
    { unfold register_worker. case_match; [by left|].
      edestruct match_sessions as [->|(c' & w' & ->)]; cbn; eauto. }
    destruct (String.eqb name "register-client").
    { unfold register_client. case_match; by left. }
    destruct (String.eqb name "request-session").
    { unfold request_session.
      destruct (takeProvider _ _) as [[w|] pool]; [|by left].
      edestruct match_sessions as [->|(c' & w' & ->)]; cbn; eauto. }
    destruct (String.eqb name "signal").
    { unfold signal. repeat case_match; by left. }
    destruct (String.eqb name "browser-event"); [|by left].
    unfold browser_event. repeat case_match; by left.
  - unfold disconnect. repeat case_match; cbn; eauto.
  - case_match; [by left|]. unfold reclaim. case_match; by left.
Qed.

(** C2 (counterexample): in [ex_grace], the state right after the client of
    a session has disconnected, the worker "W" is in the Registry with its
    sessionId still set to "s1" while the Session Table is empty. *)
Lemma session_binding_iff_fails : ¬ session_binding_iff ex_grace.
Proof.
  intros H.
  destruct (H "W" (Conn worker (Some busy) (sid_str "s1"))) as [H1 _];
    [vm_compute; reflexivity |].
  destruct (H1 eq_refl) as (sid & s & Hs & _).
  assert (E : sessions ex_grace = ∅) by (vm_compute; reflexivity).
  rewrite E, lookup_empty in Hs. discriminate Hs.
Qed.

(** C2 (amended): after any sequence of broker operations on conforming
    inputs, a connection of the Registry appears in exactly one live Session
    Table entry iff its sessionId is set and names a live entry; and a
    connection that appears in a live entry at all carries the key of that
    entry as its sessionId and appears in no other. *)
Theorem session_binding_conforming (tr : list (string * input)) :
  conforming init tr →
  let st := run init tr in
  ∀ x conn,
    connections st !! x = Some conn →
    (in_exactly_one_session st x ↔ names_live_session st conn)
    ∧ ∀ sid s,
        sessions st !! sid = Some s → appears x s →
        sessionId conn = sid_str sid
        ∧ truthy (sessionId conn) = true
        ∧ in_exactly_one_session st x.
Proof.
  intros Hc st x conn Hconn.
  assert (HI : Inv st) by (by apply Inv_run; [apply Inv_init|]).
  assert (Hpeer : ∀ sid s,
            sessions st !! sid = Some s → appears x s →
            sessionId conn = sid_str sid
            ∧ truthy (sessionId conn) = true
            ∧ in_exactly_one_session st x).
  { intros sid s Hs Happ.
    destruct (Inv_peer_registered st x sid s HI Hs Happ) as (conn' & Hconn' & E & Ht).
    assert (conn' = conn) as -> by congruence.
    split; [done|]. split; [done|].
    exists sid, s. split; [done|]. split; [done|].
    intros sid' s' Hs' Happ'.
    by apply (Inv_no_double_binding st HI x sid' sid s' s). }
  split; [|exact Hpeer]. split.
  - intros (sid & s & Hs & Happ & _).
    destruct (Hpeer sid s Hs Happ) as (E & _ & _).
    destruct (cons_sessions _ _ _ _ HI sid s Hs) as [Hne _].
    exists sid. by rewrite Hs.
  - intros (sid & E & Hne & [s Hs]).
    pose proof (cons_resolves _ _ _ _ HI x conn sid s Hconn E Hs) as Happ.
    by destruct (Hpeer sid s Hs Happ) as (_ & _ & H1).
Qed.

Lemma session_binding_conforming_witness :
  conforming init ex_lifecycle
  ∧ (in_exactly_one_session (run init ex_lifecycle) "C2"
     ↔ names_live_session (run init ex_lifecycle) (Conn client None (sid_str "s3")))
  ∧ in_exactly_one_session (run init ex_lifecycle) "C2".
Proof.
  assert (Hc : conforming init ex_lifecycle).
  { apply (bool_decide_unpack _). vm_compute. exact I. }
  split; [exact Hc |].
  destruct (session_binding_conforming ex_lifecycle Hc "C2"
              (Conn client None (sid_str "s3"))) as [Hiff Hpeer].
  - vm_compute; reflexivity.
  - split; [exact Hiff |].
    apply (Hpeer "s3" (Session "C2" "W2")).
    + vm_compute; reflexivity.
    + left; reflexivity.
Defined.

(** Without conformance neither conclusion holds: a client that requests
    again while bound is a peer of two live entries, and a pairing whose token
    is the empty string leaves both sessionIds falsy. *)
Lemma bound_twice_not_exactly_one :
  (∃ sid s, sessions ex_double !! sid = Some s ∧ appears "C" s)
  ∧ ¬ in_exactly_one_session ex_double "C".
Proof.
  assert (H1 : sessions ex_double !! "s1" = Some (Session "C" "W1"))
    by (vm_compute; reflexivity).
  assert (H2 : sessions ex_double !! "s2" = Some (Session "C" "W2"))
    by (vm_compute; reflexivity).
  split; [exists "s1", (Session "C" "W1"); split; [done | by left] |].
  intros (sid & s & _ & _ & Huniq).
  pose proof (Huniq "s1" _ H1 (or_introl eq_refl)) as E1.
  pose proof (Huniq "s2" _ H2 (or_introl eq_refl)) as E2.
  rewrite <- E1 in E2. discriminate E2.
Qed.

Lemma empty_token_leaves_sessionId_falsy :
  let st := run init [("", Emit "W" "register-worker" p_undefined);
                      ("", Emit "C" "request-session" (p_data "cfg"))] in
  sessions st !! "" = Some (Session "C" "W")
  ∧ connections st !! "C" = Some (Conn client None (sid_str ""))
  ∧ truthy (sid_str "") = false.
Proof. repeat split; vm_compute; reflexivity. Qed.

(** In [ex_double] the client "C", bound to worker "W1" by session "s1", has
    sent 'request-session' again and has been paired with "W2" under "s2";
    both entries are live and "C" is a peer of both. *)
Lemma requester_bound_twice : ¬ no_double_binding ex_double.
Proof.
  intros H.
  assert (E : "s1" = "s2"); [|discriminate E].
  apply (H "C" "s1" "s2" (Session "C" "W1") (Session "C" "W2")).
  - vm_compute; reflexivity.
  - vm_compute; reflexivity.
  - left; reflexivity.
  - left; reflexivity.
Qed.

(** An idle worker that sends 'request-session' is taken from the pool as its
    own provider. *)
Lemma worker_paired_with_itself : ¬ distinct_peers ex_self.
Proof.
  intros H. apply (H "s1" (Session "W" "W")); [vm_compute|]; reflexivity.
Qed.

(** C5 (as the code has it): the pairing checks that the provider is
    registered and idle, and does not look at the requester. A bound client
    that requests again is paired into a second session while the first stays
    live ([ex_double]); so is a client that requested twice while waiting,
    once two workers register ([ex_double_click]); an idle worker that
    requests a session becomes its own provider ([ex_self]). When the client
    of [ex_double] leaves, only the session its sessionId names is torn down:
    "s1" stays in the table and "W1" stays busy with no reclaim scheduled. *)
Theorem session_peers_not_checked :
  sessions ex_double !! "s1" = Some (Session "C" "W1")
  ∧ sessions ex_double !! "s2" = Some (Session "C" "W2")
  ∧ ¬ no_double_binding ex_double
  ∧ sessions ex_double_click !! "s1" = Some (Session "C" "W1")
  ∧ sessions ex_double_click !! "s2" = Some (Session "C" "W2")
  ∧ ¬ distinct_peers ex_self
  ∧ (let st := run ex_double [("", Disconnect "C"); ("", TimerFire)] in
     sessions st !! "s1" = Some (Session "C" "W1")
     ∧ connections st !! "W1" = Some (Conn worker (Some busy) (sid_str "s1"))
     ∧ timers st = []
     ∧ availableWorkers st = ["W2"]).
Proof.
  split; [vm_compute; reflexivity |].
  split; [vm_compute; reflexivity |].
  split; [exact requester_bound_twice |].
  split; [vm_compute; reflexivity |].
  split; [vm_compute; reflexivity |].
  split; [exact worker_paired_with_itself |].
  repeat split; vm_compute; reflexivity.
Qed.

(** What holds on conforming inputs: every live session has a requester and
    a provider that are distinct connections, no connection is a peer of two
    live sessions, and a step that creates a session takes two connections
    neither of which is a peer of a session live before it. *)
Lemma pairing_conforming (tr : list (string * input)) :
  conforming init tr →
  let st := run init tr in
  distinct_peers st
  ∧ no_double_binding st
  ∧ ∀ i sid s,
      conforming_input st i →
      sessions st !! sid = None → sessions (step st i) !! sid = Some s →
      clientSocket s ≠ workerSocket s
      ∧ unbound (sessions st) (clientSocket s)
      ∧ unbound (sessions st) (workerSocket s).
Proof.
  intros Hc st.
  assert (HI : Inv st) by (by apply Inv_run; [apply Inv_init|]).
  split; [by apply Inv_distinct_peers|]. split; [by apply Inv_no_double_binding|].
  intros i sid s Hi Hold Hnew.
  pose proof (Inv_step st i HI Hi) as HI'.
  split; [by apply (Inv_distinct_peers _ HI' sid)|].
  assert (Hkeep : ∀ sid0 s0, sessions st !! sid0 = Some s0 →
                    sessions (step st i) !! sid0 = Some s0 ∧ sid0 ≠ sid).
  { destruct (step_sessions st i) as [E|[(d & E)|(c & w & E)]].
    - rewrite E in Hnew. congruence.
    - rewrite E in Hnew. apply lookup_delete_Some in Hnew as [_ Hnew]. congruence.
    - intros sid0 s0 H0. assert (sid0 ≠ sid) by congruence. split; [|done].
      rewrite E in Hnew |- *.
      apply lookup_insert_Some in Hnew as [[-> _]|[_ Hnew]]; [|congruence].
      by rewrite lookup_insert_ne. }
  split; intros sid0 s0 H0 Happ; destruct (Hkeep sid0 s0 H0) as [H0' Hne];
    apply Hne;
    [ apply (Inv_no_double_binding _ HI' (clientSocket s) sid0 sid s0 s)
    | apply (Inv_no_double_binding _ HI' (workerSocket s) sid0 sid s0 s) ];
    try done; [by left | by right].
Qed.

Lemma pairing_conforming_example :
  conforming init (take 2 ex_trace)
  ∧ distinct_peers (run init (take 2 ex_trace))
  ∧ clientSocket (Session "C" "W") ≠ workerSocket (Session "C" "W").
Proof.
  assert (Hc : conforming init (take 2 ex_trace)).
  { apply (bool_decide_unpack _). vm_compute. exact I. }
  destruct (pairing_conforming (take 2 ex_trace) Hc) as (Hd & _ & Hnew).
  split; [exact Hc |]. split; [exact Hd |].
  apply (Hnew ("s1", Emit "C" "request-session" (p_data "cfg")) "s1"
              (Session "C" "W")).
  - apply (bool_decide_unpack _). vm_compute. exact I.
  - vm_compute; reflexivity.
  - vm_compute; reflexivity.
Defined.

(** ** Grace window *)

(** C10 (as the code has it): in [ex_grace] the reclaim of "W" is pending
    and "W" is busy. When "W" sends 'register-worker' again during the
    window, its entry is replaced (status idle) and it is pushed onto the
    pool; the next 'request-session' takes it from the pool and pairs it with
    the new requester "R" while the reclaim is still pending. *)
Theorem grace_window_reregistration :
  timers ex_grace = ["W"]
  ∧ connections ex_grace !! "W" = Some (Conn worker (Some busy) (sid_str "s1"))
  ∧ (let st1 := step ex_grace ("s2", Emit "W" "register-worker" p_undefined) in
     let st2 := step st1 ("s2", Emit "R" "request-session" (p_data "cfg")) in
     connections st1 !! "W" = Some (Conn worker (Some idle) sid_undefined)
     ∧ availableWorkers st1 = ["W"]
     ∧ timers st2 = ["W"]
     ∧ sessions st2 !! "s2" = Some (Session "R" "W")
     ∧ outbox st2 = outbox ex_grace
                    ++ [Emitted "W" "start-session" (p_data "cfg");
                        Emitted "R" "session-started" (p_session_started "s2")]).
Proof. repeat split; vm_compute; reflexivity. Qed.

Section Window.
Variable w : string.

Lemma busy_not_idle (conns : gmap string connection) :
  busy_in conns w → idle_in conns w = false.
Proof. intros (wc & Hwc & Hb). unfold idle_in, is_idle. by rewrite Hwc, Hb. Qed.

(** A pairing whose provider is another connection leaves [w] busy and
    sends 'start-session' to that provider only. *)
Lemma match_keeps_busy (rnd c w' : string) (cfg : payload) (st : state) :
  w' ≠ w → busy_in (connections st) w →
  let st' := matchClientWithWorker rnd (Some c) (Some w') cfg st in
  busy_in (connections st') w
  ∧ ∃ new, outbox st' = outbox st ++ new ∧ Forall (λ e, ¬ starts w e) new.
Proof.
  intros Hne (wc & Hwc & Hb). cbn zeta. unfold matchClientWithWorker.
  set (conns1 := match connections st !! c with
                 | Some _ => _ | None => _ end).
  assert (H1 : conns1 !! w = Some wc).
  { unfold conns1. destruct (connections st !! c) eqn:Ec; [done|].
    rewrite lookup_insert_ne; [done|]. congruence. }
  destruct (conns1 !! w') eqn:Ew'; cbn [connections outbox].
  - split.
    + destruct (decide (c = w)) as [->|Hc].
      * exists (set_sessionId (sid_str rnd) wc).
        by rewrite !lookup_alter_ne, lookup_alter_eq, H1 by done.
      * exists wc. by rewrite !lookup_alter_ne.
    + eexists. split; [done|].
      repeat constructor; unfold starts; cbn; intros [? ?]; congruence.
  - split; [by exists wc|]. exists []. by rewrite app_nil_r.
Qed.

Lemma step_keeps_busy (st : state) (i : string * input) :
  busy_in (connections st) w → quiet w st i →
  busy_in (connections (step st i)) w
  ∧ ∃ new, outbox (step st i) = outbox st ++ new ∧ Forall (λ e, ¬ starts w e) new.
Proof.
  intros Hb Hq.
  assert (Hnil : ∃ new, outbox st = outbox st ++ new ∧ Forall (λ e, ¬ starts w e) new)
    by (exists []; by rewrite app_nil_r).
  assert (Hone : ∀ tg e a, e ≠ "start-session" →
            ∃ new, outbox st ++ [Emitted tg e a] = outbox st ++ new
                   ∧ Forall (λ e, ¬ starts w e) new).
  { intros tg e a He. eexists. split; [done|].
    repeat constructor. unfold starts; cbn. intros [? ?]; congruence. }
  pose proof Hb as (wc & Hwc & Hbusy).
  destruct i as [rnd [x name a|x|]]; unfold quiet in Hq; cbn [snd] in Hq;
    cbn [step].
  - unfold on.
    destruct (String.eqb name "register-worker") eqn:E1.
    { apply String.eqb_eq in E1 as ->.
      assert (Hx : x ≠ w) by (intros ->; by apply Hq).
      unfold register_worker.
      destruct (waitingClients st) as [|R rest].
      - cbn. split; [|done]. exists wc. by rewrite lookup_insert_ne.
      - set (st0 := State _ _ rest _ _ _).
        destruct (match_keeps_busy rnd R x p_undefined st0) as [H1 H2];
          [done | exists wc; cbn; by rewrite lookup_insert_ne |].
        split; [exact H1 | exact H2]. }
    destruct (String.eqb name "register-client").
    { unfold register_client. rewrite ?Hwc.
      destruct (connections st !! x) eqn:Ex; [done|]. cbn. split; [|done].
      exists wc. rewrite lookup_insert_ne; [done|]. congruence. }
    destruct (String.eqb name "request-session").
    { unfold request_session.
      set (conns := match connections st !! x with
                    | Some _ => _ | None => _ end).
      assert (Hb' : busy_in conns w).
      { exists wc. split; [|done]. unfold conns.
        destruct (connections st !! x) eqn:Ex; [done|].
        rewrite lookup_insert_ne; [done|]. congruence. }
      destruct (takeProvider conns (availableWorkers st)) as [[w'|] pool] eqn:Et.
      - set (st0 := State conns _ _ pool _ _).
        destruct (match_keeps_busy rnd x w' a st0) as [H1 H2]; [|done|].
        + apply takeProvider_Some in Et. intros ->.
          rewrite (busy_not_idle _ Hb') in Et. discriminate.
        + split; [exact H1 | exact H2].
      - cbn. split; [done|]. by apply Hone. }
    destruct (String.eqb name "signal").
    { unfold signal. repeat case_match; try done; cbn; (split; [done|]);
        by apply Hone. }
    destruct (String.eqb name "browser-event"); [|done].
    unfold browser_event. repeat case_match; try done; cbn; (split; [done|]);
      by apply Hone.
  - unfold disconnect. destruct (connections st !! x) as [conn|] eqn:Ex; [|done].
    assert (Hdel : busy_in (delete x (connections st)) w).
    { exists wc. by rewrite lookup_delete_ne. }
    repeat case_match; cbn; (split; [done|]); first [done | by apply Hone].
  - destruct (timers st) as [|w' rest] eqn:Et; [done|].
    assert (w' ≠ w) by (cbn in Hq; congruence).
    unfold reclaim. cbn. destruct (connections st !! w') eqn:Ew'; cbn; [|done].
    split; [|done]. exists wc. by rewrite !lookup_alter_ne.
Qed.

(** Throughout its grace window a provider that does not itself register
    again stays busy, and is not told to start a session. *)
Lemma grace_window_busy (tr : list (string * input)) (st : state) :
  busy_in (connections st) w → in_window w st tr →
  busy_in (connections (run st tr)) w
  ∧ ∃ new, outbox (run st tr) = outbox st ++ new ∧ Forall (λ e, ¬ starts w e) new.
Proof.
  revert st. induction tr as [|i tr IH]; intros st Hb Hw.
  - split; [done|]. exists []. by rewrite app_nil_r.
  - destruct Hw as [Hq Hw].
    destruct (step_keeps_busy st i Hb Hq) as (Hb1 & new1 & E1 & F1).
    destruct (IH (step st i) Hb1 Hw) as (Hb2 & new2 & E2 & F2).
    split; [done|]. exists (new1 ++ new2). cbn [run foldl]. fold (run (step st i) tr).
    rewrite E2, E1, app_assoc. split; [done|]. by apply Forall_app.
Qed.
End Window.

Lemma grace_window_busy_example :
  busy_in (connections (run ex_grace
             [("s2", Emit "R" "request-session" (p_data "cfg"));
              ("s3", Emit "W2" "register-worker" p_undefined)])) "W".
Proof.
  apply (grace_window_busy "W").
  - exists (Conn worker (Some busy) (sid_str "s1")). split; vm_compute; reflexivity.
  - cbn. split; [intros [_ H]; discriminate H|].
    split; [intros [H _]; discriminate H | exact I].
Defined.

(** * Further properties of the gateway *)

(** ** Teardown on a provider's departure *)

(** When a provider bound to a live session disconnects, the requester of
    that session is sent 'worker-disconnected', the session entry is deleted
    and the provider leaves Registry and pool in the same step; no reclaim is
    scheduled, and no other Registry entry is touched: the requester keeps
    its sessionId. *)
Theorem provider_disconnect_cascade (st : state) (rnd w S : string)
    (conn : connection) (sess : session) :
  connections st !! w = Some conn → type conn = worker →
  sessionId conn = sid_str S → S ≠ "" → sessions st !! S = Some sess →
  let st' := step st (rnd, Disconnect w) in
  outbox st' = outbox st ++ [Emitted (clientSocket sess) "worker-disconnected" p_undefined]
  ∧ sessions st' = delete S (sessions st)
  ∧ connections st' = delete w (connections st)
  ∧ availableWorkers st' = remove_first w (availableWorkers st)
  ∧ timers st' = timers st
  ∧ waitingClients st' = waitingClients st.
Proof.
  intros Hc Ht Hs HS Hsess. cbn [step]. unfold disconnect.
  rewrite Hc, Ht, Hs, Hsess. cbn [truthy].
  apply String.eqb_neq in HS. by rewrite HS.
Qed.

Lemma provider_disconnect_cascade_witness :
  let st' := step ex_paired ("", Disconnect "W") in
  outbox st' = outbox ex_paired ++ [Emitted "C" "worker-disconnected" p_undefined]
  ∧ sessions st' = delete "s1" (sessions ex_paired)
  ∧ timers st' = timers ex_paired.
Proof.
  cbn zeta.
  destruct (provider_disconnect_cascade ex_paired "" "W" "s1"
              (Conn worker (Some busy) (sid_str "s1")) (Session "C" "W"))
    as (Ho & Hs & _ & _ & Ht & _).
  - vm_compute; reflexivity.
  - reflexivity.
  - reflexivity.
  - intros H; discriminate H.
  - vm_compute; reflexivity.
  - split; [exact Ho |]. split; [exact Hs | exact Ht].
Defined.

(** ** Relay *)

(** A relay event from a connection whose sessionId names a live entry is
    forwarded to the other end of that entry, chosen by the sender's type:
    'signal' goes out as 'signal'; 'browser-event' goes out as 'input-event'
    when the sender is a client and as 'frame' when it is a worker. The
    payload is passed on as it came and nothing else in the state changes. *)
Theorem relay_forwards (st : state) (rnd x sid : string) (conn : connection)
    (sess : session) (a : payload) :
  connections st !! x = Some conn → sessionId conn = sid_str sid → sid ≠ "" →
  sessions st !! sid = Some sess →
  let partner := match type conn with
                 | client => workerSocket sess
                 | worker => clientSocket sess
                 end in
  let ev := match type conn with client => "input-event" | worker => "frame" end in
  step st (rnd, Emit x "signal" a)
  = State (connections st) (sessions st) (waitingClients st) (availableWorkers st)
          (timers st) (outbox st ++ [Emitted partner "signal" a])
  ∧ step st (rnd, Emit x "browser-event" a)
    = State (connections st) (sessions st) (waitingClients st) (availableWorkers st)
            (timers st) (outbox st ++ [Emitted partner ev a]).
Proof.
  intros Hc Hs Hne Hsess. apply String.eqb_neq in Hne.
  cbn [step]. unfold on. cbn [String.eqb Ascii.eqb Bool.eqb].
  unfold signal, browser_event. rewrite Hc, Hs, Hsess. cbn [truthy]. rewrite Hne.
  cbn [negb]. by destruct (type conn).
Qed.

Lemma relay_forwards_witness :
  step ex_paired ("", Emit "W" "browser-event" (p_data "jpeg"))
  = State (connections ex_paired) (sessions ex_paired) (waitingClients ex_paired)
          (availableWorkers ex_paired) (timers ex_paired)
          (outbox ex_paired ++ [Emitted "C" "frame" (p_data "jpeg")]).
Proof.
  destruct (relay_forwards ex_paired "" "W" "s1"
              (Conn worker (Some busy) (sid_str "s1")) (Session "C" "W")
              (p_data "jpeg")) as [_ H].
  - vm_compute; reflexivity.
  - reflexivity.
  - intros H; discriminate H.
  - vm_compute; reflexivity.
  - exact H.
Defined.

(** Whoever sends it and whatever the state, a relay event changes neither
    Registry, Session Table, queue, pool nor pending reclaims; it adds at
    most one message to the log, and that message carries the payload of the
    event. *)
Theorem relay_only_emits (st : state) (rnd x : string) (a : payload) :
  let relayed st' :=
    connections st' = connections st ∧ sessions st' = sessions st
    ∧ waitingClients st' = waitingClients st
    ∧ availableWorkers st' = availableWorkers st ∧ timers st' = timers st
    ∧ (outbox st' = outbox st
       ∨ ∃ tg ev, outbox st' = outbox st ++ [Emitted tg ev a]) in
  relayed (step st (rnd, Emit x "signal" a))
  ∧ relayed (step st (rnd, Emit x "browser-event" a)).
Proof.
  cbn [step]. unfold on. cbn [String.eqb Ascii.eqb Bool.eqb]. cbn zeta.
  unfold signal, browser_event.
  split; repeat case_match; cbn; repeat split; eauto.
Qed.

(** ** Pool scan *)

(** The pool scan never hands out an entry that is unregistered or not
    idle: what it returns is idle in the Registry, every entry it dropped in
    front of it is not, and what it leaves is the rest of the pool behind the
    returned entry; when it returns nothing, no entry of the pool was idle
    and the pool is left empty. *)
Theorem takeProvider_sound (conns : gmap string connection) (pool : list string) :
  match takeProvider conns pool with
  | (Some w, rest) =>
      idle_in conns w = true
      ∧ ∃ stale, pool = stale ++ w :: rest
                 ∧ Forall (λ x, idle_in conns x = false) stale
  | (None, rest) =>
      rest = [] ∧ Forall (λ x, idle_in conns x = false) pool
  end.
Proof.
  induction pool as [|x pool IH]; [by split|].
  rewrite takeProvider_cons. destruct (idle_in conns x) eqn:Ex.
  - split; [done|]. by exists [].
  - destruct (takeProvider conns pool) as [[w|] rest].
    + destruct IH as (Hw & stale & -> & Hst). split; [done|].
      exists (x :: stale). split; [done|]. by constructor.
    + destruct IH as [-> Hall]. split; [done|]. by constructor.
Qed.

(** ** Requests *)

(** A request that finds no idle provider: the requester is appended to the
    queue tail (whether or not it is in the queue already), it is sent the
    'status' text, it is put in the Registry as a client if it was not there,
    the stale entries the scan dropped are gone and the pool is empty; no
    session is created. *)
Theorem request_session_queues (st : state) (rnd x : string) (cfg : payload) :
  Forall (λ y, idle_in (connections st) y = false) (availableWorkers st) →
  let st' := step st (rnd, Emit x "request-session" cfg) in
  waitingClients st' = waitingClients st ++ [x]
  ∧ availableWorkers st' = []
  ∧ sessions st' = sessions st
  ∧ timers st' = timers st
  ∧ outbox st' = outbox st ++ [Emitted x "status"
                                 (p_data "Waiting for available browser engine...")]
  ∧ connections st' = match connections st !! x with
                      | Some _ => connections st
                      | None => <[x := Conn client None sid_undefined]> (connections st)
                      end.
Proof.
  intros Hall. cbn [step]. rewrite on_request_session.
  rewrite (request_session_miss rnd x cfg st []); [done|].
  apply takeProvider_miss.
  eapply Forall_impl; [exact Hall|]. intros y Hy. cbn beta.
  by rewrite idle_in_autoregister.
Qed.

Lemma request_session_queues_witness :
  let st' := step ex_paired ("s2", Emit "C2" "request-session" (p_data "cfg")) in
  waitingClients st' = ["C2"]
  ∧ availableWorkers st' = []
  ∧ sessions st' = sessions ex_paired.
Proof.
  cbn zeta.
  destruct (request_session_queues ex_paired "s2" "C2" (p_data "cfg"))
    as (Hq & Hp & Hs & _).
  - vm_compute. constructor.
  - split; [exact Hq |]. split; [exact Hp | exact Hs].
Defined.

(** A request that finds an idle provider: it is paired with the first pool
    entry that is registered and idle; that entry and the stale ones in front
    of it leave the pool, the provider becomes busy and is sent
    'start-session' with the requester's config as it came, the requester is
    sent 'session-started' with the token, both carry the token as sessionId,
    and the requester is not queued. *)
Theorem request_session_pairs (st : state) (rnd x w : string) (cfg : payload)
    (stale rest : list string) :
  availableWorkers st = stale ++ w :: rest →
  Forall (λ y, idle_in (connections st) y = false) stale →
  idle_in (connections st) w = true →
  let st' := step st (rnd, Emit x "request-session" cfg) in
  availableWorkers st' = rest
  ∧ waitingClients st' = waitingClients st
  ∧ sessions st' = <[rnd := Session x w]> (sessions st)
  ∧ timers st' = timers st
  ∧ outbox st' = outbox st ++ [Emitted w "start-session" cfg;
                               Emitted x "session-started" (p_session_started rnd)]
  ∧ (∃ wc, connections st' !! w = Some wc
           ∧ status wc = Some busy ∧ sessionId wc = sid_str rnd)
  ∧ (∃ xc, connections st' !! x = Some xc ∧ sessionId xc = sid_str rnd).
Proof.
  intros Hpool Hstale Hidle. cbn [step]. rewrite on_request_session.
  set (conns := match connections st !! x with
                | Some _ => connections st
                | None => <[x := Conn client None sid_undefined]> (connections st)
                end).
  assert (Htake : takeProvider conns (availableWorkers st) = (Some w, rest)).
  { rewrite Hpool. apply takeProvider_hit.
    - eapply Forall_impl; [exact Hstale|]. intros y Hy. cbn beta.
      unfold conns. by rewrite idle_in_autoregister.
    - unfold conns. by rewrite idle_in_autoregister. }
  rewrite (request_session_hit rnd x cfg st w rest Htake). fold conns.
  set (st1 := State conns _ _ rest _ _).
  destruct (idle_in_Some conns w) as (wc & Hwc & _).
  { unfold conns. by rewrite idle_in_autoregister. }
  pose proof (match_worker_entry rnd x w cfg st1 wc Hwc) as HW.
  pose proof (match_client_bound rnd x w cfg st1 wc Hwc) as HX.
  rewrite (match_commits rnd x w cfg st1 wc Hwc) in *.
  cbn [connections sessions waitingClients availableWorkers timers outbox st1] in *.
  repeat split; try done. eauto.
Qed.

Lemma request_session_pairs_witness :
  let st := run init [("", Emit "W" "register-worker" p_undefined)] in
  let st' := step st ("s1", Emit "C" "request-session" (p_data "cfg")) in
  availableWorkers st' = []
  ∧ sessions st' = <["s1" := Session "C" "W"]> (sessions st)
  ∧ outbox st' = outbox st ++ [Emitted "W" "start-session" (p_data "cfg");
                               Emitted "C" "session-started" (p_session_started "s1")].
Proof.
  cbn zeta.
  destruct (request_session_pairs
              (run init [("", Emit "W" "register-worker" p_undefined)])
              "s1" "C" "W" (p_data "cfg") [] [])
    as (Hp & _ & Hs & _ & Ho & _).
  - reflexivity.
  - constructor.
  - vm_compute; reflexivity.
  - split; [exact Hp |]. split; [exact Hs | exact Ho].
Defined.

Lemma request_session_waits (st : state) (rnd x : string) (cfg : payload) :
  Forall (λ y, idle_in (connections st) y = false) (availableWorkers st) →
  let st' := request_session rnd x cfg st in
  waitingClients st' = waitingClients st ++ [x]
  ∧ availableWorkers st' = []
  ∧ sessions st' = sessions st
  ∧ outbox st' = outbox st ++ [Emitted x "status"
                                 (p_data "Waiting for available browser engine...")].
Proof.
  intros Hall. cbn zeta.
  rewrite (request_session_miss rnd x cfg st []); [done|].
  apply takeProvider_miss.
  eapply Forall_impl; [exact Hall|]. intros y Hy. cbn beta.
  by rewrite idle_in_autoregister.
Qed.

Lemma register_worker_serves_head (st : state) (rnd P R : string) (rest : list string) :
  waitingClients st = R :: rest →
  let st' := register_worker rnd P st in
  waitingClients st' = rest
  ∧ availableWorkers st' = availableWorkers st
  ∧ sessions st' = <[rnd := Session R P]> (sessions st)
  ∧ outbox st' = outbox st ++ [Emitted P "start-session" p_undefined;
                               Emitted R "session-started" (p_session_started rnd)].
Proof.
  intros Hq. cbn zeta. unfold register_worker. rewrite Hq.
  set (st0 := State _ _ rest _ _ _).
  by rewrite (match_commits rnd R P p_undefined st0 _ (lookup_insert_eq _ _ _)).
Qed.

(** The queue is served in arrival order, and a queued request loses its
    config: with an empty queue and no idle provider in the pool, when R1 and
    R2 request in that order and providers P1 and P2 register afterwards, R1
    is paired with P1 and R2 with P2, and each provider is sent
    'start-session' with no config, whatever the requesters had sent. *)
Theorem queue_fifo_drops_config (st : state) (R1 R2 P1 P2 r1 r2 s1 s2 : string)
    (c1 c2 a1 a2 : payload) :
  waitingClients st = [] →
  Forall (λ y, idle_in (connections st) y = false) (availableWorkers st) →
  s1 ≠ s2 →
  let st' := run st [(r1, Emit R1 "request-session" c1);
                     (r2, Emit R2 "request-session" c2);
                     (s1, Emit P1 "register-worker" a1);
                     (s2, Emit P2 "register-worker" a2)] in
  sessions st' !! s1 = Some (Session R1 P1)
  ∧ sessions st' !! s2 = Some (Session R2 P2)
  ∧ waitingClients st' = []
  ∧ availableWorkers st' = []
  ∧ outbox st' =
      outbox st ++ [Emitted R1 "status" (p_data "Waiting for available browser engine...");
                    Emitted R2 "status" (p_data "Waiting for available browser engine...");
                    Emitted P1 "start-session" p_undefined;
                    Emitted R1 "session-started" (p_session_started s1);
                    Emitted P2 "start-session" p_undefined;
                    Emitted R2 "session-started" (p_session_started s2)].
Proof.
  intros Hq Hpool Hs. cbn [run foldl step].
  rewrite !on_register_worker, !on_request_session.
  destruct (request_session_waits st r1 R1 c1 Hpool) as (Q1 & P1' & S1 & O1).
  set (st1 := request_session r1 R1 c1 st) in *.
  destruct (request_session_waits st1 r2 R2 c2) as (Q2 & P2' & S2 & O2).
  { rewrite P1'. constructor. }
  set (st2 := request_session r2 R2 c2 st1) in *.
  rewrite Q1, Hq in Q2. cbn [app] in Q2.
  destruct (register_worker_serves_head st2 s1 P1 R1 [R2] Q2) as (Q3 & P3 & S3 & O3).
  set (st3 := register_worker s1 P1 st2) in *.
  destruct (register_worker_serves_head st3 s2 P2 R2 [] Q3) as (Q4 & P4 & S4 & O4).
  set (st4 := register_worker s2 P2 st3) in *.
  rewrite S4, S3, lookup_insert_ne, !lookup_insert_eq by done.
  rewrite Q4, P4, P3, P2', O4, O3, O2, O1, <- !app_assoc.
  by repeat split.
Qed.

Lemma queue_fifo_drops_config_witness :
  let st' := run init [("", Emit "R1" "request-session" (p_data "a"));
                       ("", Emit "R2" "request-session" (p_data "b"));
                       ("s1", Emit "P1" "register-worker" p_undefined);
                       ("s2", Emit "P2" "register-worker" p_undefined)] in
  sessions st' !! "s1" = Some (Session "R1" "P1")
  ∧ sessions st' !! "s2" = Some (Session "R2" "P2").
Proof.
  cbn zeta.
  destruct (queue_fifo_drops_config init "R1" "R2" "P1" "P2" "" "" "s1" "s2"
              (p_data "a") (p_data "b") p_undefined p_undefined)
    as (H1 & H2 & _).
  - reflexivity.
  - constructor.
  - intros H; discriminate H.
  - split; [exact H1 | exact H2].
Defined.

(** ** Departures *)

Lemma disconnect_waiting_client (x : string) (conn : connection) (st : state) :
  connections st !! x = Some conn → type conn = client →
  truthy (sessionId conn) = false →
  disconnect x st =
    State (delete x (connections st)) (sessions st)
          (remove_first x (waitingClients st)) (availableWorkers st)
          (timers st) (outbox st).
Proof.
  intros Hc Ht Hf. unfold disconnect. rewrite Hc, Ht.
  destruct (sessionId conn); [done | done |]. by rewrite Hf.
Qed.

(** A disconnect takes one occurrence of the socket out of the queue. A new
    client that requested twice while no provider was idle and then left is
    still in the queue: the next provider to register is paired with it, its
    Registry entry is created again, and the provider is started for a peer
    that is gone. *)
Theorem departed_requester_still_paired (st : state) (x P r1 r2 r3 rnd : string)
    (c1 c2 a : payload) :
  waitingClients st = [] →
  Forall (λ y, idle_in (connections st) y = false) (availableWorkers st) →
  connections st !! x = None → x ≠ P →
  let left := run st [(r1, Emit x "request-session" c1);
                      (r2, Emit x "request-session" c2);
                      (r3, Disconnect x)] in
  let st' := step left (rnd, Emit P "register-worker" a) in
  connections left !! x = None
  ∧ waitingClients left = [x]
  ∧ sessions st' = <[rnd := Session x P]> (sessions st)
  ∧ connections st' !! x = Some (Conn client None (sid_str rnd))
  ∧ connections st' !! P = Some (Conn worker (Some busy) (sid_str rnd))
  ∧ waitingClients st' = []
  ∧ outbox st' = outbox left ++ [Emitted P "start-session" p_undefined;
                                 Emitted x "session-started" (p_session_started rnd)].
Proof.
  intros Hq Hpool Hx Hne. cbn [run foldl step]. rewrite !on_request_session.
  (* two requests, both queued *)
  rewrite (request_session_miss r1 x c1 st []); cycle 1.
  { apply takeProvider_miss. eapply Forall_impl; [exact Hpool|].
    intros y Hy. cbn beta. by rewrite idle_in_autoregister. }
  rewrite Hx, Hq. cbn [app].
  rewrite (request_session_miss r2 x c2 _ []); cycle 1.
  { cbn. constructor. }
  cbn [connections sessions waitingClients availableWorkers timers outbox app].
  rewrite lookup_insert_eq.
  (* the client leaves: one of its two queue entries goes *)
  erewrite disconnect_waiting_client; cycle 1.
  { cbn. apply lookup_insert_eq. }
  { done. }
  { done. }
  cbn [connections sessions waitingClients availableWorkers timers outbox
       remove_first]. rewrite String.eqb_refl.
  rewrite delete_insert_id by done.
  split; [done|]. split; [done|].
  (* the provider registers *)
  rewrite on_register_worker. unfold register_worker.
  cbn [connections sessions waitingClients availableWorkers timers outbox].
  set (st0 := State _ _ [] _ _ _).
  assert (HP : connections st0 !! P = Some (Conn worker (Some idle) sid_undefined))
    by apply lookup_insert_eq.
  pose proof (match_worker_entry rnd x P p_undefined st0 _ HP) as HW.
  pose proof (match_client_entry rnd x P p_undefined st0 _ HP Hne) as HC.
  rewrite (match_commits rnd x P p_undefined st0 _ HP) in *.
  cbn [connections sessions waitingClients availableWorkers timers outbox st0] in *.
  rewrite lookup_insert_ne, Hx in HC, HW |- * by done.
  by repeat split.
Qed.

Lemma departed_requester_still_paired_witness :
  let left := run init [("", Emit "C" "request-session" (p_data "a"));
                        ("", Emit "C" "request-session" (p_data "a"));
                        ("", Disconnect "C")] in
  let st' := step left ("s1", Emit "W" "register-worker" p_undefined) in
  connections left !! "C" = None
  ∧ sessions st' = <["s1" := Session "C" "W"]> (sessions init)
  ∧ connections st' !! "C" = Some (Conn client None (sid_str "s1")).
Proof.
  cbn zeta.
  destruct (departed_requester_still_paired init "C" "W" "" "" "" "s1"
              (p_data "a") (p_data "a") p_undefined)
    as (H1 & _ & H2 & H3 & _).
  - reflexivity.
  - constructor.
  - reflexivity.
  - intros H; discriminate H.
  - split; [exact H1 |]. split; [exact H2 | exact H3].
Defined.

Lemma disconnect_other_entry (x y : string) (st : state) :
  y ≠ x → connections (disconnect x st) !! y = connections st !! y.
Proof.
  intros Hne. unfold disconnect.
  destruct (connections st !! x) as [conn|] eqn:Ex; [|done].
  cbn [connections]. rewrite lookup_delete_ne by done.
  repeat case_match; done.
Qed.

(** A disconnect removes the departing socket from the Registry and changes
    no other Registry entry (a partner keeps its sessionId and status); a
    second disconnect of the same socket changes nothing. *)
Theorem disconnect_only_departing (st : state) (rnd rnd' x : string) :
  let st' := step st (rnd, Disconnect x) in
  connections st' !! x = None
  ∧ step st' (rnd', Disconnect x) = st'
  ∧ ∀ y, y ≠ x → connections st' !! y = connections st !! y.
Proof.
  cbn [step]. cbn zeta. split; [apply disconnect_unregisters|]. split.
  - unfold disconnect at 1. by rewrite disconnect_unregisters.
  - intros y Hy. by apply disconnect_other_entry.
Qed.

Lemma disconnect_only_departing_witness :
  connections (step ex_paired ("", Disconnect "C")) !! "W"
  = connections ex_paired !! "W".
Proof.
  destruct (disconnect_only_departing ex_paired "" "" "C") as (_ & _ & H).
  apply H. intros E; discriminate E.
Defined.

(** ** Invariants on conforming inputs *)

(** After any sequence of conforming inputs: the requester of every live
    session is registered as a client and its provider as a worker with
    status busy; the queue has no duplicates and every waiting requester is a
    registered client that is a peer of no live session; the pending reclaims
    have no duplicates and each is for a provider that is a peer of no live
    session and, while it is still registered, is a busy worker. *)
Theorem broker_consistent_conforming (tr : list (string * input)) :
  conforming init tr →
  let st := run init tr in
  (∀ sid s, sessions st !! sid = Some s →
     ∃ cc wc, connections st !! clientSocket s = Some cc ∧ type cc = client
              ∧ connections st !! workerSocket s = Some wc ∧ type wc = worker
              ∧ status wc = Some busy)
  ∧ NoDup (waitingClients st)
  ∧ (∀ x, x ∈ waitingClients st →
       unbound (sessions st) x
       ∧ ∃ conn, connections st !! x = Some conn ∧ type conn = client)
  ∧ NoDup (timers st)
  ∧ (∀ x, x ∈ timers st →
       unbound (sessions st) x
       ∧ ∀ conn, connections st !! x = Some conn →
                 type conn = worker ∧ status conn = Some busy).
Proof.
  intros Hc st.
  assert (HI : Inv st) by (by apply Inv_run; [apply Inv_init|]).
  destruct HI as [Hs _ _ Htm Htn Hq Hqn].
  split; [|done].
  intros sid s Hsid.
  destruct (Hs sid s Hsid) as (_ & (cc & Hcc & Hcty & _) & (wc & Hwc & Hwty & Hb & _)).
  by exists cc, wc.
Qed.

Lemma broker_consistent_conforming_witness :
  conforming init ex_lifecycle
  ∧ NoDup (waitingClients (run init ex_lifecycle))
  ∧ NoDup (timers (run init ex_lifecycle)).
Proof.
  assert (Hc : conforming init ex_lifecycle).
  { apply (bool_decide_unpack _). vm_compute. exact I. }
  destruct (broker_consistent_conforming ex_lifecycle Hc) as (_ & Hq & _ & Ht & _).
  split; [exact Hc |]. split; [exact Hq | exact Ht].
Defined.

Section PoolInvariant.
Variable st : state.
Hypothesis HI : Inv st.
Hypothesis HP : pool_ok st.

Lemma pool_entry_registered (x : string) :
  x ∈ availableWorkers st →
  ∃ conn, connections st !! x = Some conn ∧ type conn = worker
          ∧ status conn = Some idle.
Proof.
  intros Hx. destruct HP as [_ Hidle].
  destruct (idle_in_Some _ _ (Hidle x Hx)) as (conn & Hconn & Hst).
  exists conn. split; [done|]. split; [|done].
  destruct (type conn) eqn:E; [done|].
  rewrite (cons_clients _ _ _ _ HI x conn Hconn E) in Hst. discriminate.
Qed.

Lemma pool_ok_register_client (x : string) : pool_ok (register_client x st).
Proof.
  unfold register_client. destruct (connections st !! x) eqn:Ex; [exact HP|].
  destruct HP as [Hnd Hidle]. split; [exact Hnd|]. cbn. intros y Hy.
  pose proof (idle_in_autoregister (connections st) x y) as E.
  rewrite Ex in E. rewrite E. by apply Hidle.
Qed.

Lemma pool_ok_request_session (rnd x : string) (cfg : payload) :
  pool_ok (request_session rnd x cfg st).
Proof.
  destruct HP as [Hnd Hidle].
  set (conns := match connections st !! x with
                | Some _ => connections st
                | None => <[x := Conn client None sid_undefined]> (connections st)
                end).
  assert (Hidle' : ∀ y, y ∈ availableWorkers st → idle_in conns y = true).
  { intros y Hy. unfold conns. rewrite idle_in_autoregister. by apply Hidle. }
  destruct (availableWorkers st) as [|w rest] eqn:Epool.
  - rewrite (request_session_miss rnd x cfg st []); [|by rewrite Epool].
    split; cbn; [constructor|]. intros y Hy. by apply elem_of_nil in Hy.
  - rewrite (request_session_hit rnd x cfg st w rest); cycle 1.
    { rewrite Epool, takeProvider_cons. fold conns.
      rewrite Hidle'; [done | by left]. }
    fold conns. apply NoDup_cons in Hnd as [Hw Hrest].
    set (st1 := State conns _ _ rest _ _).
    assert (Hpool : availableWorkers (matchClientWithWorker rnd (Some x) (Some w) cfg st1)
                    = rest).
    { unfold matchClientWithWorker. repeat case_match; done. }
    split; rewrite Hpool; [done|].
    intros y Hy. rewrite match_idle_other by (by intros ->).
    apply Hidle'. by right.
Qed.

Lemma pool_ok_register_worker (rnd x : string) :
  connections st !! x = None → pool_ok (register_worker rnd x st).
Proof.
  intros Hx. destruct HP as [Hnd Hidle].
  assert (Hnx : x ∉ availableWorkers st).
  { intros Hin. specialize (Hidle x Hin). unfold idle_in in Hidle.
    by rewrite Hx in Hidle. }
  assert (Hidle' : ∀ y, y ∈ availableWorkers st →
            idle_in (<[x := Conn worker (Some idle) sid_undefined]> (connections st)) y
            = true).
  { intros y Hy. unfold idle_in. rewrite lookup_insert_ne by (by intros ->).
    by apply Hidle. }
  unfold register_worker. destruct (waitingClients st) as [|R rest].
  - split; cbn.
    + apply NoDup_app. split; [done|]. split; [|apply NoDup_singleton].
      intros y Hy ->%list_elem_of_singleton. done.
    + intros y [Hy|Hy%list_elem_of_singleton]%elem_of_app; [by apply Hidle'|].
      subst y. unfold idle_in. by rewrite lookup_insert_eq.
  - set (st0 := State _ _ rest _ _ _).
    assert (Hpool : availableWorkers (matchClientWithWorker rnd (Some R) (Some x)
                                        p_undefined st0) = availableWorkers st).
    { unfold matchClientWithWorker. repeat case_match; done. }
    split; rewrite Hpool; [done|].
    intros y Hy. rewrite match_idle_other by (by intros ->). by apply Hidle'.
Qed.

Lemma pool_ok_disconnect (x : string) : pool_ok (disconnect x st).
Proof.
  destruct HP as [Hnd Hidle]. unfold disconnect.
  destruct (connections st !! x) as [conn|] eqn:Ex; [|done].
  assert (Hdel : ∀ y, y ≠ x → y ∈ availableWorkers st →
            idle_in (delete x (connections st)) y = true).
  { intros y Hne Hy. unfold idle_in. rewrite lookup_delete_ne by done.
    by apply Hidle. }
  destruct (type conn) eqn:Ety.
  - (* a worker leaves the pool with the Registry *)
    destruct (remove_first_NoDup x _ Hnd) as [Hnd' Hx'].
    assert (Hgoal : NoDup (remove_first x (availableWorkers st))
              ∧ ∀ y, y ∈ remove_first x (availableWorkers st) →
                     idle_in (delete x (connections st)) y = true).
    { split; [done|]. intros y Hy. apply Hdel.
      - by intros ->.
      - by eapply remove_first_elem_of. }
    repeat case_match; exact Hgoal.
  - (* a client is not in the pool *)
    assert (Hx : x ∉ availableWorkers st).
    { intros Hin. destruct (pool_entry_registered x Hin) as (c' & Hc' & Hty & _).
      congruence. }
    assert (Hgoal : NoDup (availableWorkers st)
              ∧ ∀ y, y ∈ availableWorkers st →
                     idle_in (delete x (connections st)) y = true).
    { split; [done|]. intros y Hy. apply Hdel; [|done]. by intros ->. }
    repeat case_match; exact Hgoal.
Qed.

Lemma pool_ok_timer_fire (rnd : string) : pool_ok (step st (rnd, TimerFire)).
Proof.
  destruct HP as [Hnd Hidle]. cbn [step].
  destruct (timers st) as [|w rest] eqn:Et; [done|].
  unfold reclaim. cbn [connections].
  destruct (connections st !! w) as [wc|] eqn:Ew; [|done].
  destruct (cons_timers _ _ _ _ HI w) as [_ Hb]; [rewrite Et; by left|].
  destruct (Hb wc Ew) as [_ Hbusy].
  assert (Hw : w ∉ availableWorkers st).
  { intros Hin. specialize (Hidle w Hin). unfold idle_in, is_idle in Hidle.
    by rewrite Ew, Hbusy in Hidle. }
  split; cbn.
  - apply NoDup_app. split; [done|]. split; [|apply NoDup_singleton].
    intros y Hy ->%list_elem_of_singleton. done.
  - intros y [Hy|Hy%list_elem_of_singleton]%elem_of_app.
    + unfold idle_in. rewrite !lookup_alter_ne by (by intros ->). by apply Hidle.
    + subst y. unfold idle_in. by rewrite !lookup_alter_eq, Ew.
Qed.

Lemma pool_ok_step (i : string * input) :
  conforming_input st i → pool_ok (step st i).
Proof.
  intros Hi. destruct i as [rnd [x name a|x|]].
  - cbn [step]. unfold on. cbn [conforming_input] in Hi.
    destruct (String.eqb name "register-worker").
    { destruct Hi as (Hx & _). by apply pool_ok_register_worker. }
    destruct (String.eqb name "register-client"); [apply pool_ok_register_client|].
    destruct (String.eqb name "request-session"); [apply pool_ok_request_session|].
    destruct (String.eqb name "signal").
    { unfold signal. repeat case_match; exact HP. }
    destruct (String.eqb name "browser-event"); [|exact HP].
    unfold browser_event. repeat case_match; exact HP.
  - apply pool_ok_disconnect.
  - apply pool_ok_timer_fire.
Qed.
End PoolInvariant.

Lemma pool_ok_run (tr : list (string * input)) (st : state) :
  Inv st → pool_ok st → conforming st tr → Inv (run st tr) ∧ pool_ok (run st tr).
Proof.
  revert st. induction tr as [|i tr IH]; intros st HI HP Hc; [done|].
  destruct Hc as [Hi Hc]. cbn [run foldl]. apply IH; [| |exact Hc].
  - by apply Inv_step.
  - by apply pool_ok_step.
Qed.

(** On conforming inputs the pool never holds a stale entry: it has no
    duplicates and each of its entries is a registered worker with status
    idle that is a peer of no live session and has no reclaim pending; so the
    pool scan has nothing to discard and returns the head of the pool. *)
Theorem pool_never_stale_conforming (tr : list (string * input)) :
  conforming init tr →
  let st := run init tr in
  NoDup (availableWorkers st)
  ∧ (∀ x, x ∈ availableWorkers st →
       (∃ conn, connections st !! x = Some conn ∧ type conn = worker
                ∧ status conn = Some idle)
       ∧ unbound (sessions st) x ∧ x ∉ timers st)
  ∧ takeProvider (connections st) (availableWorkers st)
    = match availableWorkers st with
      | [] => (None, [])
      | w :: rest => (Some w, rest)
      end.
Proof.
  intros Hc st.
  destruct (pool_ok_run tr init Inv_init) as [HI HP]; [|exact Hc|].
  { split; cbn; [constructor|]. intros x Hx. by apply elem_of_nil in Hx. }
  fold st in HI, HP. split; [apply HP|]. split.
  - intros x Hx. split; [by apply pool_entry_registered|].
    destruct HP as [_ Hidle].
    destruct (idle_provider_free st (connections st) x HI (Hidle x Hx))
      as (_ & _ & _ & Hu & Ht).
    done.
  - destruct HP as [_ Hidle].
    destruct (availableWorkers st) as [|w rest]; [done|].
    rewrite takeProvider_cons, Hidle; [done | by left].
Qed.

Lemma pool_never_stale_conforming_witness :
  conforming init ex_lifecycle
  ∧ NoDup (availableWorkers (run init ex_lifecycle))
  ∧ takeProvider (connections (run init ex_lifecycle))
                 (availableWorkers (run init ex_lifecycle))
    = (Some "W", []).
Proof.
  assert (Hc : conforming init ex_lifecycle).
  { apply (bool_decide_unpack _). vm_compute. exact I. }
  destruct (pool_never_stale_conforming ex_lifecycle Hc) as (Hnd & _ & Htake).
  split; [exact Hc |]. split; [exact Hnd | exact Htake].
Defined.

Lemma worker_status_ok_match (rnd c w : string) (cfg : payload) (st : state)
    (wc : connection) :
  worker_status_ok st → rnd ≠ "" → connections st !! w = Some wc →
  (∀ cc, connections st !! c = Some cc → type cc = client) →
  worker_status_ok (matchClientWithWorker rnd (Some c) (Some w) cfg st).
Proof.
  intros Hok Hrnd Hw Hc x conn Hx Hty.
  apply String.eqb_neq in Hrnd.
  destruct (decide (x = w)) as [->|Hxw].
  { rewrite (match_worker_entry rnd c w cfg st wc Hw) in Hx. simplify_eq.
    left. cbn. by rewrite Hrnd. }
  destruct (decide (x = c)) as [->|Hxc].
  { assert (c ≠ w) by done.
    rewrite (match_client_entry rnd c w cfg st wc Hw) in Hx by done.
    simplify_eq. cbn in Hty.
    destruct (connections st !! c) as [cc|] eqn:Ec; cbn in Hty; [|done].
    rewrite (Hc cc eq_refl) in Hty. done. }
  rewrite match_other_entry in Hx by done. by apply (Hok x).
Qed.

Section WorkerStatus.
Variable st : state.
Hypothesis HI : Inv st.
Hypothesis HW : worker_status_ok st.

Lemma worker_status_ok_insert (x : string) (new : connection) (st' : state) :
  (type new = worker → status new = Some idle ∧ truthy (sessionId new) = false) →
  connections st' = <[x := new]> (connections st) →
  worker_status_ok st'.
Proof.
  intros Hnew E y conn Hy Hty. rewrite E in Hy.
  apply lookup_insert_Some in Hy as [[-> <-]|[_ Hy]]; [right; auto|].
  by apply (HW y).
Qed.

Lemma worker_status_ok_step (i : string * input) :
  conforming_input st i → worker_status_ok (step st i).
Proof.
  intros Hi. destruct i as [rnd [x name a|x|]].
  - cbn [step]. unfold on. cbn [conforming_input] in Hi.
    destruct (String.eqb name "register-worker").
    { destruct Hi as (Hx & _ & Hrnd & _). unfold register_worker.
      destruct (waitingClients st) as [|R rest] eqn:Eq.
      - by apply (worker_status_ok_insert x (Conn worker (Some idle) sid_undefined)).
      - destruct (cons_queue _ _ _ _ HI R) as [_ (rc & Hrc & Hrty)];
          [rewrite Eq; by left|].
        eapply worker_status_ok_match; [|done|apply lookup_insert_eq|].
        + by apply (worker_status_ok_insert x (Conn worker (Some idle) sid_undefined)).
        + cbn. intros cc Hcc. rewrite lookup_insert_ne in Hcc by congruence.
          congruence. }
    destruct (String.eqb name "register-client").
    { unfold register_client. destruct (connections st !! x); [exact HW|].
      by apply (worker_status_ok_insert x (Conn client None sid_undefined)). }
    destruct (String.eqb name "request-session").
    { destruct Hi as (Hx & _ & _ & Hrnd & _).
      set (conns := match connections st !! x with
                    | Some _ => connections st
                    | None => <[x := Conn client None sid_undefined]> (connections st)
                    end).
      assert (Hok : ∀ pool q o, worker_status_ok
                      (State conns (sessions st) q pool (timers st) o)).
      { intros pool q o. unfold conns.
        destruct (connections st !! x); [exact HW|].
        by apply (worker_status_ok_insert x (Conn client None sid_undefined)). }
      destruct (takeProvider conns (availableWorkers st)) as [[w|] pool] eqn:Et.
      - rewrite (request_session_hit rnd x a st w pool Et). fold conns.
        destruct (takeProvider_registered _ _ _ _ Et) as [wc Hwc].
        eapply worker_status_ok_match; [apply Hok|done|exact Hwc|].
        cbn. unfold conns. intros cc Hcc.
        destruct (connections st !! x) as [xc|] eqn:Ex; [congruence|].
        rewrite lookup_insert_eq in Hcc. by simplify_eq.
      - rewrite (request_session_miss rnd x a st pool Et). fold conns. apply Hok. }
    destruct (String.eqb name "signal").
    { unfold signal. repeat case_match; exact HW. }
    destruct (String.eqb name "browser-event"); [|exact HW].
    unfold browser_event. repeat case_match; exact HW.
  - cbn [step]. intros y conn Hy.
    destruct (decide (y = x)) as [->|Hne].
    + by rewrite disconnect_unregisters in Hy.
    + rewrite disconnect_other_entry in Hy by done. by apply (HW y).
  - cbn [step]. destruct (timers st) as [|w rest]; [exact HW|].
    unfold reclaim. cbn [connections].
    destruct (connections st !! w) as [wc|] eqn:Ew; [|exact HW].
    intros y conn Hy Hty. cbn in Hy.
    destruct (decide (y = w)) as [->|Hne].
    + rewrite !lookup_alter_eq, Ew in Hy. cbn in Hy. simplify_eq. right. by cbn.
    + rewrite !lookup_alter_ne in Hy by done. by apply (HW y).
Qed.
End WorkerStatus.

Lemma worker_status_ok_run (tr : list (string * input)) (st : state) :
  Inv st → worker_status_ok st → conforming st tr → worker_status_ok (run st tr).
Proof.
  revert st. induction tr as [|i tr IH]; intros st HI HW Hc; [done|].
  destruct Hc as [Hi Hc]. cbn [run foldl]. apply IH; [| |exact Hc].
  - by apply Inv_step.
  - by apply worker_status_ok_step.
Qed.

(** On conforming inputs a provider's status follows its sessionId: a worker
    entry is busy exactly when its sessionId is set and idle exactly when it
    is not. *)
Theorem worker_status_tracks_sessionId (tr : list (string * input)) :
  conforming init tr →
  ∀ x conn,
    connections (run init tr) !! x = Some conn → type conn = worker →
    (status conn = Some busy ↔ truthy (sessionId conn) = true)
    ∧ (status conn = Some idle ↔ truthy (sessionId conn) = false).
Proof.
  intros Hc x conn Hx Hty.
  assert (HW : worker_status_ok (run init tr)).
  { apply worker_status_ok_run; [apply Inv_init| |exact Hc].
    intros y c Hy. cbn in Hy. by rewrite lookup_empty in Hy. }
  destruct (HW x conn Hx Hty) as [[Hs Ht]|[Hs Ht]]; rewrite Hs, Ht;
    repeat split; done.
Qed.

Lemma worker_status_tracks_sessionId_witness :
  conforming init ex_lifecycle
  ∧ (status (Conn worker (Some busy) (sid_str "s3")) = Some busy
     ↔ truthy (sessionId (Conn worker (Some busy) (sid_str "s3"))) = true).
Proof.
  assert (Hc : conforming init ex_lifecycle).
  { apply (bool_decide_unpack _). vm_compute. exact I. }
  split; [exact Hc |].
  destruct (worker_status_tracks_sessionId ex_lifecycle Hc "W2"
              (Conn worker (Some busy) (sid_str "s3"))) as [H _].
  - vm_compute; reflexivity.
  - reflexivity.
  - exact H.
Defined.

(** ** The Session Table and its tokens *)

Lemma takeProvider_elem_of (conns : gmap string connection) (pool : list string)
    (w : string) (rest : list string) :
  takeProvider conns pool = (Some w, rest) → w ∈ pool.
Proof.
  induction pool as [|x pool IH]; [done|].
  rewrite takeProvider_cons. destruct (idle_in conns x).
  - intros [= <- _]. by left.
  - intros H. right. by apply IH.
Qed.

(** What one input can do to the Session Table. A timer never changes it.
    A disconnect leaves it alone or deletes the one entry the departing
    connection's own sessionId names. A peer message leaves it alone or sets
    the entry of the token drawn in this step: for 'register-worker' to the
    head of the queue and the sender, for 'request-session' to the sender and
    an entry of the pool. No other message creates or ends a session. *)
Theorem session_table_changes (st : state) (i : string * input) :
  match i.2 with
  | TimerFire => sessions (step st i) = sessions st
  | Disconnect x =>
      sessions (step st i) = sessions st
      ∨ ∃ conn sid, connections st !! x = Some conn
                    ∧ sessionId conn = sid_str sid ∧ sid ≠ ""
                    ∧ sessions (step st i) = delete sid (sessions st)
  | Emit x name a =>
      sessions (step st i) = sessions st
      ∨ ∃ c w, sessions (step st i) = <[i.1 := Session c w]> (sessions st)
               ∧ ((name = "register-worker" ∧ w = x
                   ∧ head (waitingClients st) = Some c)
                  ∨ (name = "request-session" ∧ c = x
                     ∧ w ∈ availableWorkers st))
  end.
Proof.
  destruct i as [rnd [x name a|x|]]; cbn [snd fst step].
  - unfold on.
    destruct (String.eqb name "register-worker") eqn:E1.
    { apply String.eqb_eq in E1 as ->. unfold register_worker.
      destruct (waitingClients st) as [|R rest]; [by left|].
      set (st0 := State _ _ rest _ _ _).
      rewrite (match_commits rnd R x p_undefined st0 _ (lookup_insert_eq _ _ _)).
      right. exists R, x. split; [done|]. by left. }
    destruct (String.eqb name "register-client").
    { unfold register_client. case_match; by left. }
    destruct (String.eqb name "request-session") eqn:E3.
    { apply String.eqb_eq in E3 as ->.
      set (conns := match connections st !! x with
                    | Some _ => connections st
                    | None => <[x := Conn client None sid_undefined]> (connections st)
                    end).
      destruct (takeProvider conns (availableWorkers st)) as [[w|] pool] eqn:Et.
      - rewrite (request_session_hit rnd x a st w pool Et). fold conns.
        destruct (takeProvider_registered _ _ _ _ Et) as [wc Hwc].
        set (st1 := State conns _ _ pool _ _).
        rewrite (match_commits rnd x w a st1 wc Hwc).
        right. exists x, w. split; [done|]. right. split; [done|]. split; [done|].
        by eapply takeProvider_elem_of.
      - rewrite (request_session_miss rnd x a st pool Et). by left. }
    destruct (String.eqb name "signal").
    { unfold signal. repeat case_match; by left. }
    destruct (String.eqb name "browser-event"); [|by left].
    unfold browser_event. repeat case_match; by left.
  - unfold disconnect. destruct (connections st !! x) as [conn|] eqn:Ex; [|by left].
    destruct (sessionId conn) as [| |sid] eqn:Es;
      [destruct (type conn); by left | destruct (type conn); by left |].
    destruct (truthy (sid_str sid)) eqn:Et; [|destruct (type conn); by left].
    right. exists conn, sid. split; [done|]. split; [done|]. split.
    + intros ->. discriminate Et.
    + destruct (type conn); [done|]. by destruct (sessions st !! sid).
  - destruct (timers st) as [|w rest]; [done|].
    unfold reclaim. by case_match.
Qed.

Lemma request_session_takes (st : state) (rnd x w : string) (cfg : payload)
    (stale rest : list string) :
  availableWorkers st = stale ++ w :: rest →
  Forall (λ y, idle_in (connections st) y = false) stale →
  idle_in (connections st) w = true →
  let conns := match connections st !! x with
               | Some _ => connections st
               | None => <[x := Conn client None sid_undefined]> (connections st)
               end in
  request_session rnd x cfg st
  = matchClientWithWorker rnd (Some x) (Some w) cfg
      (State conns (sessions st) (waitingClients st) rest (timers st) (outbox st))
  ∧ ∃ wc, conns !! w = Some wc.
Proof.
  intros Hpool Hstale Hidle conns.
  assert (Htake : takeProvider conns (availableWorkers st) = (Some w, rest)).
  { rewrite Hpool. apply takeProvider_hit.
    - eapply Forall_impl; [exact Hstale|]. intros y Hy. cbn beta.
      unfold conns. by rewrite idle_in_autoregister.
    - unfold conns. by rewrite idle_in_autoregister. }
  split; [by apply request_session_hit|].
  destruct (takeProvider_registered _ _ _ _ Htake) as [wc Hwc]. by exists wc.
Qed.

(** Tokens are not checked against the Session Table. A pairing whose token
    is the key of a live entry replaces that entry, and a connection that
    still carries the token as its sessionId is from then on relayed to the
    peers of the new session: the input events of such a client reach the
    new provider. *)
Theorem token_collision_crosstalk (st : state) (rnd x w oc r : string)
    (cfg a : payload) (occ : connection) (old : session) (stale rest : list string) :
  sessions st !! rnd = Some old → rnd ≠ "" →
  connections st !! oc = Some occ → sessionId occ = sid_str rnd →
  type occ = client → oc ≠ x → oc ≠ w →
  availableWorkers st = stale ++ w :: rest →
  Forall (λ y, idle_in (connections st) y = false) stale →
  idle_in (connections st) w = true →
  let st' := step st (rnd, Emit x "request-session" cfg) in
  sessions st' !! rnd = Some (Session x w)
  ∧ outbox (step st' (r, Emit oc "browser-event" a))
    = outbox st' ++ [Emitted w "input-event" a]
  ∧ outbox (step st' (r, Emit oc "signal" a))
    = outbox st' ++ [Emitted w "signal" a].
Proof.
  intros Hold Hrnd Hoc Hsid Hty Hx Hw Hpool Hstale Hidle.
  cbn [step]. rewrite on_request_session. cbn zeta.
  destruct (request_session_takes st rnd x w cfg stale rest Hpool Hstale Hidle)
    as [-> (wc & Hwc)].
  set (st1 := State _ _ _ rest _ _) in *.
  assert (Hocc : connections (matchClientWithWorker rnd (Some x) (Some w) cfg st1) !! oc
                 = Some occ).
  { rewrite match_other_entry by done. unfold st1. cbn [connections].
    destruct (connections st !! x) eqn:Ex; [done|]. by rewrite lookup_insert_ne. }
  assert (Hnew : sessions (matchClientWithWorker rnd (Some x) (Some w) cfg st1) !! rnd
                 = Some (Session x w)).
  { rewrite (match_commits rnd x w cfg st1 wc Hwc). apply lookup_insert_eq. }
  set (st' := matchClientWithWorker rnd (Some x) (Some w) cfg st1) in *.
  split; [exact Hnew|].
  apply String.eqb_neq in Hrnd.
  unfold on. cbn [String.eqb Ascii.eqb Bool.eqb]. unfold browser_event, signal.
  rewrite Hocc, Hsid, Hnew, Hty. cbn [truthy]. rewrite Hrnd. done.
Qed.

Lemma token_collision_crosstalk_witness :
  let st := run ex_paired [("", Emit "W2" "register-worker" p_undefined)] in
  let st' := step st ("s1", Emit "C2" "request-session" (p_data "cfg")) in
  sessions st' !! "s1" = Some (Session "C2" "W2")
  ∧ outbox (step st' ("", Emit "C" "browser-event" (p_data "key")))
    = outbox st' ++ [Emitted "W2" "input-event" (p_data "key")].
Proof.
  cbn zeta.
  destruct (token_collision_crosstalk
              (run ex_paired [("", Emit "W2" "register-worker" p_undefined)])
              "s1" "C2" "W2" "C" "" (p_data "cfg") (p_data "key")
              (Conn client None (sid_str "s1")) (Session "C" "W") [] [])
    as (H1 & H2 & _).
  - vm_compute; reflexivity.
  - intros H; discriminate H.
  - vm_compute; reflexivity.
  - reflexivity.
  - reflexivity.
  - intros H; discriminate H.
  - intros H; discriminate H.
  - vm_compute; reflexivity.
  - constructor.
  - vm_compute; reflexivity.
  - split; [exact H1 | exact H2].
Defined.

(** The token can be the empty string, which is falsy. A new client paired
    under the empty token is bound in the Session Table, yet the relay drops
    what either peer sends, and when the client disconnects nothing is torn
    down: the entry stays, the provider is sent no 'stop-session', no reclaim
    is scheduled and the provider stays busy. *)
Theorem empty_token_session_stuck (st : state) (x w r1 r2 : string)
    (cfg a : payload) (stale rest : list string) :
  connections st !! x = None → x ≠ w →
  availableWorkers st = stale ++ w :: rest →
  Forall (λ y, idle_in (connections st) y = false) stale →
  idle_in (connections st) w = true →
  let st' := step st ("", Emit x "request-session" cfg) in
  let gone := step st' (r2, Disconnect x) in
  sessions st' !! "" = Some (Session x w)
  ∧ step st' (r1, Emit x "signal" a) = st'
  ∧ step st' (r1, Emit x "browser-event" a) = st'
  ∧ step st' (r1, Emit w "signal" a) = st'
  ∧ step st' (r1, Emit w "browser-event" a) = st'
  ∧ sessions gone !! "" = Some (Session x w)
  ∧ outbox gone = outbox st'
  ∧ timers gone = timers st'
  ∧ ∃ wc, connections gone !! w = Some wc ∧ status wc = Some busy.
Proof.
  intros Hx Hne Hpool Hstale Hidle.
  cbn [step]. rewrite on_request_session. cbn zeta.
  destruct (request_session_takes st "" x w cfg stale rest Hpool Hstale Hidle)
    as [-> (wc & Hwc)].
  rewrite Hx in *.
  set (st1 := State _ _ _ rest _ _) in *.
  pose proof (match_worker_entry "" x w cfg st1 wc Hwc) as HW.
  pose proof (match_client_entry "" x w cfg st1 wc Hwc Hne) as HX.
  unfold st1 in HX at 2. cbn [connections] in HX.
  rewrite lookup_insert_eq in HX. cbn [default] in HX.
  assert (Hs : sessions (matchClientWithWorker "" (Some x) (Some w) cfg st1) !! ""
               = Some (Session x w)).
  { rewrite (match_commits "" x w cfg st1 wc Hwc). apply lookup_insert_eq. }
  set (st' := matchClientWithWorker "" (Some x) (Some w) cfg st1) in *.
  unfold on. cbn [String.eqb Ascii.eqb Bool.eqb].
  split; [exact Hs|].
  split; [by eapply signal_unbound|].
  split; [by eapply browser_event_unbound|].
  split; [by eapply signal_unbound|].
  split; [by eapply browser_event_unbound|].
  rewrite (disconnect_waiting_client x _ st' HX) by done.
  cbn [connections sessions timers outbox].
  split; [exact Hs|]. split; [done|]. split; [done|].
  eexists. rewrite lookup_delete_ne by done. split; [exact HW | done].
Qed.

Lemma empty_token_session_stuck_witness :
  let st := run init [("", Emit "W" "register-worker" p_undefined)] in
  let st' := step st ("", Emit "C" "request-session" (p_data "cfg")) in
  sessions st' !! "" = Some (Session "C" "W")
  ∧ step st' ("", Emit "C" "signal" (p_data "offer")) = st'
  ∧ sessions (step st' ("", Disconnect "C")) !! "" = Some (Session "C" "W").
Proof.
  cbn zeta.
  destruct (empty_token_session_stuck
              (run init [("", Emit "W" "register-worker" p_undefined)])
              "C" "W" "" "" (p_data "cfg") (p_data "offer") [] [])
    as (H1 & H2 & _ & _ & _ & H3 & _).
  - vm_compute; reflexivity.
  - intros H; discriminate H.
  - reflexivity.
  - constructor.
  - vm_compute; reflexivity.
  - split; [exact H1 |]. split; [exact H2 | exact H3].
Defined.

(** ** Reclaim and the queue *)

(** The reclaim does not serve the queue. When the timer of a registered
    provider fires while requesters wait, the provider goes to the pool and
    the queue is left as it is; a request that arrives next is paired with
    that provider at once, ahead of the requesters that are still waiting. *)
Theorem late_requester_overtakes_queue (st : state) (w x R r rnd : string)
    (wc : connection) (rest q : list string) (cfg : payload) :
  timers st = w :: rest → connections st !! w = Some wc →
  waitingClients st = R :: q →
  Forall (λ y, idle_in (connections st) y = false) (availableWorkers st) →
  w ∉ availableWorkers st →
  let fired := step st (r, TimerFire) in
  let st' := step fired (rnd, Emit x "request-session" cfg) in
  waitingClients fired = R :: q
  ∧ availableWorkers fired = availableWorkers st ++ [w]
  ∧ outbox fired = outbox st
  ∧ sessions st' = <[rnd := Session x w]> (sessions st)
  ∧ waitingClients st' = R :: q
  ∧ outbox st' = outbox st ++ [Emitted w "start-session" cfg;
                               Emitted x "session-started" (p_session_started rnd)].
Proof.
  intros Ht Hw Hq Hpool Hnw. cbn [step]. rewrite Ht.
  rewrite (reclaim_registered w _ wc) by exact Hw.
  cbn [connections sessions waitingClients availableWorkers timers outbox].
  cbn zeta. split; [done|]. split; [done|]. split; [done|].
  rewrite on_request_session.
  set (fired := State _ _ _ _ rest _).
  destruct (request_session_takes fired rnd x w cfg (availableWorkers st) [])
    as [-> (wc' & Hwc')].
  { done. }
  { apply Forall_forall. intros y Hy. cbn [connections fired].
    unfold idle_in. rewrite lookup_insert_ne by (by intros ->).
    by apply (proj1 (Forall_forall _ _) Hpool). }
  { cbn [connections fired]. unfold idle_in. by rewrite lookup_insert_eq. }
  set (st1 := State _ _ _ [] _ _).
  rewrite (match_commits rnd x w cfg st1 wc' Hwc').
  cbn [sessions waitingClients outbox st1 fired]. by rewrite Hq.
Qed.

Lemma late_requester_overtakes_queue_witness :
  let st := run ex_paired [("s2", Emit "C1" "request-session" (p_data "a"));
                           ("", Disconnect "C")] in
  let st' := run st [("", TimerFire);
                     ("s3", Emit "C2" "request-session" (p_data "b"))] in
  waitingClients st = ["C1"]
  ∧ sessions st' = <["s3" := Session "C2" "W"]> (sessions st)
  ∧ waitingClients st' = ["C1"].
Proof.
  cbn zeta.
  destruct (late_requester_overtakes_queue
              (run ex_paired [("s2", Emit "C1" "request-session" (p_data "a"));
                              ("", Disconnect "C")])
              "W" "C2" "C1" "" "s3" (Conn worker (Some busy) (sid_str "s1"))
              [] [] (p_data "b"))
    as (_ & _ & _ & H1 & H2 & _).
  - vm_compute; reflexivity.
  - vm_compute; reflexivity.
  - vm_compute; reflexivity.
  - vm_compute. constructor.
  - vm_compute. apply not_elem_of_nil.
  - split; [vm_compute; reflexivity |]. split; [exact H1 | exact H2].
Defined.

(** * The front end *)

(** [handleNavigate] emits only while the front end has a socket and a
    session. The url it emits starts with "http": an input that starts with
    "http" is sent as it is, any other input gets "https://" in front; the
    url field is left holding what was sent, so submitting again sends the
    same url. *)
Theorem handleNavigate_target (s : App.state) :
  match App.handleNavigate s with
  | (s', Some target) =>
      App.socket s = true ∧ App.has_session s = true
      ∧ String.prefix "http" target = true
      ∧ target = (if String.prefix "http" (App.urlInput s) then App.urlInput s
                  else String.append "https://" (App.urlInput s))
      ∧ App.urlInput s' = target
      ∧ App.handleNavigate s' = (s', Some target)
  | (s', None) =>
      s' = s ∧ (App.socket s = false ∨ App.has_session s = false)
  end.
Proof.
  unfold App.handleNavigate.
  destruct (App.socket s) eqn:Es; cbn [andb]; [|by split; [|left]].
  destruct (App.has_session s) eqn:Eh; [|by split; [|right]].
  destruct (String.prefix "http" (App.urlInput s)) eqn:Ep.
  - repeat split; try done. by rewrite Es, Eh, Ep.
  - repeat split; try done. cbn [App.socket App.urlInput].
    assert (Eh' : ∀ u, App.has_session
              (App.State (App.socket s) (App.status s) (App.sessionId s)
                         (App.frame s) u) = true) by (intros u; exact Eh).
    rewrite Es in *. rewrite Eh'. done.
Qed.

Lemma emitted_between_app (st st' : state) (new : list emission) :
  outbox st' = outbox st ++ new → emitted_between st st' = new.
Proof. intros E. unfold emitted_between. by rewrite E, drop_app_length. Qed.

(** Terminate, then allocate. [terminateSession] clears the front end's
    session and emits 'stop-session', which the gateway ignores; the request
    button is offered again, and when it is pressed while a provider is idle
    the gateway pairs the client a second time: the old session entry is
    still live, the new one has the same requester, and no 'stop-session' has
    gone to the first provider. *)
Theorem terminate_then_allocate (st : state) (ui : App.state)
    (c S w2 r1 rnd : string) (cc : connection) (sess : session)
    (stale rest : list string) :
  App.socket ui = true →
  connections st !! c = Some cc → sessionId cc = sid_str S →
  sessions st !! S = Some sess → clientSocket sess = c → rnd ≠ S →
  availableWorkers st = stale ++ w2 :: rest →
  Forall (λ y, idle_in (connections st) y = false) stale →
  idle_in (connections st) w2 = true →
  let t := App.terminateSession ui in
  let r := App.requestSession t.1 in
  let st' := run st (map (from_front_end c r1) t.2 ++ map (from_front_end c rnd) r.2) in
  App.allocate_offered t.1 = true
  ∧ sessions st' !! S = Some sess
  ∧ sessions st' !! rnd = Some (Session c w2)
  ∧ outbox st' = outbox st ++ [Emitted w2 "start-session" (p_data (App.urlInput ui));
                               Emitted c "session-started" (p_session_started rnd)].
Proof.
  intros Hsock Hc Hsid Hsess Hcl Hrnd Hpool Hstale Hidle.
  unfold App.terminateSession, App.requestSession. rewrite Hsock.
  cbn [fst snd App.socket App.urlInput map app from_front_end run foldl step].
  split; [done|].
  change (on r1 c "stop-session" p_undefined st) with st.
  rewrite on_request_session.
  destruct (request_session_takes st rnd c w2 (p_data (App.urlInput ui))
              stale rest Hpool Hstale Hidle) as [-> (wc & Hwc)].
  set (st1 := State _ _ _ rest _ _) in *.
  rewrite (match_commits rnd c w2 _ st1 wc Hwc).
  cbn [sessions outbox st1].
  rewrite lookup_insert_ne, lookup_insert_eq by done. done.
Qed.

Lemma terminate_then_allocate_witness :
  let st := run ex_paired [("", Emit "W2" "register-worker" p_undefined)] in
  let ui := App.on_session_started "s1" (App.mount App.init) in
  let t := App.terminateSession ui in
  let r := App.requestSession t.1 in
  let st' := run st (map (from_front_end "C" "") t.2
                     ++ map (from_front_end "C" "s2") r.2) in
  App.allocate_offered t.1 = true
  ∧ sessions st' !! "s1" = Some (Session "C" "W")
  ∧ sessions st' !! "s2" = Some (Session "C" "W2").
Proof.
  cbn zeta.
  destruct (terminate_then_allocate
              (run ex_paired [("", Emit "W2" "register-worker" p_undefined)])
              (App.on_session_started "s1" (App.mount App.init))
              "C" "s1" "W2" "" "s2" (Conn client None (sid_str "s1"))
              (Session "C" "W") [] [])
    as (H1 & H2 & H3 & _).
  - reflexivity.
  - vm_compute; reflexivity.
  - reflexivity.
  - vm_compute; reflexivity.
  - reflexivity.
  - intros H; discriminate H.
  - vm_compute; reflexivity.
  - constructor.
  - vm_compute; reflexivity.
  - split; [exact H1 |]. split; [exact H2 | exact H3].
Defined.

(** The front end learns its session from the pairing: when its request is
    paired, the messages of that step addressed to it leave it with status
    'Session Active' and with the token of the new Session Table entry as
    its sessionId; it then counts as having a session, and stops offering
    the request button, exactly when the token is not the empty string. *)
Theorem front_end_learns_session (st : state) (ui : App.state)
    (c w rnd : string) (cfg : payload) (stale rest : list string) :
  availableWorkers st = stale ++ w :: rest →
  Forall (λ y, idle_in (connections st) y = false) stale →
  idle_in (connections st) w = true →
  let st' := step st (rnd, Emit c "request-session" cfg) in
  let ui' := receive c (emitted_between st st') ui in
  sessions st' !! rnd = Some (Session c w)
  ∧ App.sessionId ui' = Some rnd
  ∧ App.status ui' = "Session Active"
  ∧ (App.has_session ui' = true ↔ rnd ≠ "")
  ∧ (App.allocate_offered ui' = true ↔ rnd = "").
Proof.
  intros Hpool Hstale Hidle. cbn [step]. rewrite on_request_session. cbn zeta.
  destruct (request_session_takes st rnd c w cfg stale rest Hpool Hstale Hidle)
    as [-> (wc & Hwc)].
  set (st1 := State _ _ _ rest _ _) in *.
  rewrite (match_commits rnd c w cfg st1 wc Hwc).
  erewrite emitted_between_app; [|cbn [outbox st1]; reflexivity].
  cbn [sessions]. rewrite lookup_insert_eq. split; [done|].
  unfold receive. cbn [foldl target]. rewrite (String.eqb_refl c).
  assert (Hstart : ∀ s, App.deliver (Emitted w "start-session" cfg) s = s)
    by reflexivity.
  assert (Hmid : (if String.eqb w c
                  then App.deliver (Emitted w "start-session" cfg) ui else ui) = ui)
    by (destruct (String.eqb w c); [apply Hstart | done]).
  rewrite Hmid.
  change (App.deliver (Emitted c "session-started" (p_session_started rnd)) ui)
    with (App.on_session_started rnd ui).
  split; [done|]. split; [done|].
  unfold App.allocate_offered, App.has_session. cbn.
  destruct (String.eqb rnd "") eqn:E.
  - apply String.eqb_eq in E. split; split; done.
  - apply String.eqb_neq in E. split; split; done.
Qed.

Lemma front_end_learns_session_witness :
  let st := run init [("", Emit "W" "register-worker" p_undefined)] in
  let st' := step st ("s1", Emit "C" "request-session" (p_data "cfg")) in
  let ui' := receive "C" (emitted_between st st') (App.mount App.init) in
  sessions st' !! "s1" = Some (Session "C" "W")
  ∧ App.sessionId ui' = Some "s1".
Proof.
  cbn zeta.
  destruct (front_end_learns_session
              (run init [("", Emit "W" "register-worker" p_undefined)])
              (App.mount App.init) "C" "W" "s1" (p_data "cfg") [] [])
    as (H1 & H2 & _).
  - reflexivity.
  - constructor.
  - vm_compute; reflexivity.
  - split; [exact H1 | exact H2].
Defined.

(** While it waits the front end still offers the request button: a request
    that finds no idle provider is answered with 'status' only, which leaves
    the front end without a session, and a second press puts the same
    connection into the queue a second time. *)
Theorem waiting_front_end_requests_twice (st : state) (ui : App.state)
    (c r1 r2 : string) :
  App.socket ui = true → App.has_session ui = false →
  Forall (λ y, idle_in (connections st) y = false) (availableWorkers st) →
  let q1 := App.requestSession ui in
  let st1 := run st (map (from_front_end c r1) q1.2) in
  let ui1 := receive c (emitted_between st st1) q1.1 in
  let q2 := App.requestSession ui1 in
  let st2 := run st1 (map (from_front_end c r2) q2.2) in
  App.status ui1 = "Waiting for available browser engine..."
  ∧ App.allocate_offered ui1 = true
  ∧ waitingClients st2 = waitingClients st ++ [c; c]
  ∧ sessions st2 = sessions st.
Proof.
  intros Hsock Hno Hpool.
  unfold App.requestSession at 1. rewrite Hsock.
  cbn [fst snd map from_front_end run foldl step]. rewrite on_request_session.
  destruct (request_session_waits st r1 c (p_data (App.urlInput ui)) Hpool)
    as (Q1 & P1 & S1 & O1).
  set (st1 := request_session r1 c _ st) in *.
  rewrite (emitted_between_app st st1 _ O1).
  unfold receive. cbn [foldl target]. rewrite (String.eqb_refl c).
  set (ui1 := App.deliver _ _).
  assert (Hno1 : App.has_session ui1 = false) by exact Hno.
  split; [done|]. split; [unfold App.allocate_offered; by rewrite Hno1|].
  assert (Hsock1 : App.socket ui1 = true) by reflexivity.
  unfold App.requestSession. rewrite Hsock1.
  cbn [fst snd map from_front_end run foldl step]. rewrite on_request_session.
  destruct (request_session_waits st1 r2 c (p_data (App.urlInput ui1)))
    as (Q2 & _ & S2 & _).
  { rewrite P1. constructor. }
  rewrite Q2, S2, Q1, S1, <- app_assoc. done.
Qed.

Lemma waiting_front_end_requests_twice_witness :
  let ui := App.mount App.init in
  let q1 := App.requestSession ui in
  let st1 := run init (map (from_front_end "C" "") q1.2) in
  let ui1 := receive "C" (emitted_between init st1) q1.1 in
  let q2 := App.requestSession ui1 in
  let st2 := run st1 (map (from_front_end "C" "") q2.2) in
  App.allocate_offered ui1 = true
  ∧ waitingClients st2 = ["C"; "C"].
Proof.
  cbn zeta.
  destruct (waiting_front_end_requests_twice init (App.mount App.init) "C" "" "")
    as (_ & H1 & H2 & _).
  - reflexivity.
  - reflexivity.
  - constructor.
  - split; [exact H1 | exact H2].
Defined.

(** * Pairing attempts *)



